(** * Build/deploy job console: progress extraction, tag validation, job ordering

    A shallow embedding of the client-side logic of the docker-builder
    console (the Queue, Jobs and BuildForm components) together with the
    properties its specification states about it.

    Conventions of the embedding.
    - A JavaScript string is a [string]; each [ascii] stands for one UTF-16
      code unit in the range U+0000..U+00FF.  All patterns of the program
      are ASCII, so code units above that range could only ever fall into
      the "any other character" branches.
    - A JavaScript number that holds an integer is a [Z].
    - [null]/[undefined] fields are [option]s, [None] being the absent value.
    - An object literal used as a lookup table is a [gmap] of its own
      properties; where the code reads or writes it under a computed key,
      the members it inherits from [Object.prototype] are modelled too. *)

From Stdlib Require Import ZArith Lia Ascii String List.
From Stdlib Require Import DecimalString.
From stdpp Require Import gmap strings list sorting.

Local Open Scope Z_scope.

(** ** JavaScript values and strings *)

Module Js.

(** The values a JSON payload can put into an array slot. *)
Inductive jsval : Type :=
  | VUndefined
  | VNull
  | VBool (b : bool)
  | VNum (n : Z)
  | VStr (s : string)
  | VObj.

Definition typeof (v : jsval) : string :=
  match v with
  | VUndefined => "undefined"
  | VNull => "object"
  | VBool _ => "boolean"
  | VNum _ => "number"
  | VStr _ => "string"
  | VObj => "object"
  end.

Definition code (c : ascii) : N := N_of_ascii c.

(** [\d] *)
Definition is_digit (c : ascii) : bool :=
  ((48 <=? code c) && (code c <=? 57))%N.

(** [[A-Za-z]] *)
Definition is_alpha (c : ascii) : bool :=
  (((65 <=? code c) && (code c <=? 90)) || ((97 <=? code c) && (code c <=? 122)))%N.

(** White space and line terminators removed by [String.prototype.trim]
    (within U+0000..U+00FF): TAB, LF, VT, FF, CR, SP and NBSP. *)
Definition is_space (c : ascii) : bool :=
  (((9 <=? code c) && (code c <=? 13)) || (code c =? 32) || (code c =? 160))%N.

Definition all_chars (p : ascii -> bool) (s : string) : bool :=
  forallb p (list_ascii_of_string s).

Fixpoint trim_start (s : string) : string :=
  match s with
  | String c s' => if is_space c then trim_start s' else s
  | EmptyString => EmptyString
  end.

(** Removes trailing white space: a character is kept when something
    that is kept follows it, or when it is not white space itself. *)
Fixpoint trim_end (s : string) : string :=
  match s with
  | String c s' =>
      match trim_end s' with
      | EmptyString => if is_space c then EmptyString else String c EmptyString
      | r => String c r
      end
  | EmptyString => EmptyString
  end.

Definition trim (s : string) : string := trim_end (trim_start s).

Definition digit_value (c : ascii) : Z := Z.of_N (code c) - 48.

(** Value of the leading run of decimal digits of [s], after [acc]. *)
Fixpoint digits_value (acc : Z) (s : string) : Z :=
  match s with
  | String c s' =>
      if is_digit c then digits_value (10 * acc + digit_value c) s' else acc
  | EmptyString => acc
  end.

(** [parseInt(s, 10)]: leading white space, an optional sign, then the
    longest run of digits; [None] is NaN (no digit to read). *)
Definition parseInt (s : string) : option Z :=
  let s1 := trim_start s in
  let '(sign, s2) :=
    match s1 with
    | String "-"%char r => (-1, r)
    | String "+"%char r => (1, r)
    | _ => (1, s1)
    end in
  match s2 with
  | String c _ => if is_digit c then Some (sign * digits_value 0 s2) else None
  | EmptyString => None
  end.

(** [String(n)] for an integer [n]. *)
Definition to_string (n : Z) : string := NilZero.string_of_int (Z.to_int n).

Fixpoint repeat_char (c : ascii) (n : nat) : string :=
  match n with
  | O => EmptyString
  | S n' => String c (repeat_char c n')
  end.

(** [s.padStart(len, c)] with a one-character filler. *)
Definition padStart (s : string) (len : nat) (c : ascii) : string :=
  String.append (repeat_char c (len - String.length s)) s.

(** [a || b] on an optional string: the empty string is falsy too. *)
Definition or_string (a : option string) (b : string) : string :=
  match a with
  | Some EmptyString | None => b
  | Some s => s
  end.

(** [a || 0] on an optional number. *)
Definition or_zero (a : option Z) : Z :=
  match a with
  | Some n => n
  | None => 0
  end.

(** The property key an optional string is converted to in [obj[k]]. *)
Definition property_key (k : option string) : string :=
  match k with
  | Some s => s
  | None => "undefined"
  end.

End Js.

Import Js.

(** ** Job records as served by [GET /builds] *)

Record job : Type := Job {
  id : string;
  state : option string;
  logs : option (list jsval);
  timestamp : option Z
}.

(** ** Queue component: progress from the log lines *)

Module Queue.

(** Strips the literal [p] from the front of [s]. *)
Fixpoint strip_prefix (p s : string) : option string :=
  match p, s with
  | EmptyString, _ => Some s
  | String a p', String b s' => if Ascii.eqb a b then strip_prefix p' s' else None
  | String _ _, EmptyString => None
  end.

(** Greedy [\d{1,n}]: the leading digits of [s], at most [n] of them. *)
Fixpoint take_digits (n : nat) (s : string) : string :=
  match n, s with
  | S n', String c s' =>
      if is_digit c then String c (take_digits n' s') else EmptyString
  | _, _ => EmptyString
  end.

(** [/PROGRESS:(\d{1,3})/] tried at the start of [s]; the result is
    capture group 1. *)
Definition match_here (s : string) : option string :=
  match strip_prefix "PROGRESS:" s with
  | Some rest =>
      match take_digits 3 rest with
      | EmptyString => None
      | d => Some d
      end
  | None => None
  end.

(** [ln.match(/PROGRESS:(\d{1,3})/)]: the leftmost position where the
    pattern matches; [None] is the [null] of a failed match. *)
Fixpoint match_progress (s : string) : option string :=
  match match_here s with
  | Some d => Some d
  | None =>
      match s with
      | String _ s' => match_progress s'
      | EmptyString => None
      end
  end.

(** [typeof ln === 'string' ? ln.match(...) : null] *)
Definition line_match (ln : jsval) : option string :=
  if String.eqb (typeof ln) "string"
  then match ln with VStr s => match_progress s | _ => None end
  else None.

(** The [for] loop of [parseProgressFromLogs]; [scan_down logs n] runs the
    iterations [i = n-1, ..., 0]. *)
Fixpoint scan_down (logs : list jsval) (n : nat) : option Z :=
  match n with
  | O => None
  | S i =>
      let ln := default VUndefined (logs !! i) in
      match line_match ln with
      | Some d =>
          match parseInt d with
          | Some v => Some (Z.max 0 (Z.min 100 v))
          | None => scan_down logs i
          end
      | None => scan_down logs i
      end
  end.

(** [logs] is [None] when the job carries no log array. *)
Definition parseProgressFromLogs (logs : option (list jsval)) : option Z :=
  match logs with
  | None => None
  | Some l =>
      if Nat.eqb (length l) 0 then None else scan_down l (length l)
  end.

(** [{ ...j, progress: p }] *)
Record enriched : Type := Enriched {
  base : job;
  progress : option Z
}.

(** The [map] callback of [load]. *)
Definition enrich (j : job) : enriched :=
  let p := parseProgressFromLogs (logs j) in
  {| base := j; progress := p |}.

(** [(job.logs && job.logs.length) || 0] *)
Definition log_count (j : job) : Z :=
  match logs j with
  | Some l => Z.of_nat (length l)
  | None => 0
  end.

Definition estimateProgress (job : enriched) : Z :=
  match progress job with
  | Some p => p
  | None =>
      let state := or_string (state (base job)) "queued" in
      if String.eqb state "queued" then 5
      else if String.eqb state "running" then
        let n := log_count (base job) in
        Z.min 95 (5 + n * 2)
      else if String.eqb state "done" then 100
      else if String.eqb state "error" then 100
      else 0
  end.

(** What the progress bar of a job of the list shows. *)
Definition displayed_progress (j : job) : Z := estimateProgress (enrich j).

End Queue.

(** ** BuildForm component: tags *)

Module BuildForm.

(** The UTC fields read from [new Date()]. *)
Record utc_date : Type := UtcDate {
  getUTCFullYear : Z;
  getUTCMonth : Z;
  getUTCDate : Z;
  getUTCHours : Z;
  getUTCMinutes : Z;
  getUTCSeconds : Z
}.

(** A calendar instant whose year is written with four digits. *)
Definition calendar_date (d : utc_date) : Prop :=
  1000 <= getUTCFullYear d <= 9999 /\
  0 <= getUTCMonth d <= 11 /\
  1 <= getUTCDate d <= 31 /\
  0 <= getUTCHours d <= 23 /\
  0 <= getUTCMinutes d <= 59 /\
  0 <= getUTCSeconds d <= 59.

Definition pad (n : Z) : string := padStart (to_string n) 2 "0".

Definition generateTag (d : utc_date) : string :=
  let y := getUTCFullYear d in
  let m := pad (getUTCMonth d + 1) in
  let day := pad (getUTCDate d) in
  let hh := pad (getUTCHours d) in
  let mm := pad (getUTCMinutes d) in
  let ss := pad (getUTCSeconds d) in
  to_string y +:+ m +:+ day +:+ "-" +:+ hh +:+ mm +:+ ss.

(** [[A-Za-z0-9_]] *)
Definition tag_first_char (c : ascii) : bool :=
  is_alpha c || is_digit c || Ascii.eqb c "_".

(** [[A-Za-z0-9_.-]] *)
Definition tag_char (c : ascii) : bool :=
  is_alpha c || is_digit c || Ascii.eqb c "_" || Ascii.eqb c "." || Ascii.eqb c "-".

(** [/^[A-Za-z0-9_][A-Za-z0-9_.-]*$/.test(t)] *)
Definition tag_regex (t : string) : bool :=
  match t with
  | String c rest => tag_first_char c && all_chars tag_char rest
  | EmptyString => false
  end.

(** [\d{n}] at the start of [s]; the rest of [s] when it matches. *)
Fixpoint expect_digits (n : nat) (s : string) : option string :=
  match n, s with
  | O, _ => Some s
  | S n', String c s' => if is_digit c then expect_digits n' s' else None
  | S _, EmptyString => None
  end.

(** [/^\d{8}-\d{6}$/.test(t)] *)
Definition timestamp_regex (t : string) : bool :=
  match expect_digits 8 t with
  | Some (String "-" rest) =>
      match expect_digits 6 rest with
      | Some EmptyString => true
      | _ => false
      end
  | _ => false
  end.

Record validation : Type := Validation {
  ok : bool;
  value : string
}.

Definition validateTag (raw : option string) : validation :=
  let t := trim (or_string raw "") in
  if Nat.eqb (String.length t) 0 then {| ok := true; value := "" |}
  else
    let ok := Nat.leb (String.length t) 128 && tag_regex t in
    {| ok := ok; value := t |}.

(** How [submit] ends, as far as the tag is concerned. *)
Inductive submission : Type :=
  | NoBranchesFound
  | NoBranchSelected
  | InvalidTag
  | PostBuild (tag : string).

(** The form state [submit] reads. *)
Record form : Type := Form {
  branchesLoaded : bool;
  branches : list string;
  branch : string;
  tag : option string
}.

Definition submit (now : utc_date) (f : form) : submission :=
  if branchesLoaded f && Nat.eqb (length (branches f)) 0 then NoBranchesFound
  else if Nat.eqb (String.length (branch f)) 0 then NoBranchSelected
  else
    let v := validateTag (tag f) in
    if negb (ok v) then InvalidTag
    else
      let finalTag :=
        match value v with
        | EmptyString => generateTag now
        | tagTrimmed => tagTrimmed
        end in
      PostBuild finalTag.

End BuildForm.

(** ** Jobs component: ordering of the job list *)

Module Jobs.

(** The own properties of the [stateOrder] literal. *)
Definition stateOrder : gmap string Z :=
  {[ "running" := 0; "queued" := 1; "done" := 2; "error" := 3 ]}.

(** The members an object literal inherits from [Object.prototype]: a
    read under one of these keys finds the inherited member. *)
Definition object_prototype_members : list string :=
  [ "constructor"; "__defineGetter__"; "__defineSetter__"; "hasOwnProperty";
    "__lookupGetter__"; "__lookupSetter__"; "isPrototypeOf";
    "propertyIsEnumerable"; "toString"; "valueOf"; "__proto__";
    "toLocaleString" ].

Definition is_prototype_member (k : string) : bool :=
  existsb (String.eqb k) object_prototype_members.

(** What [stateA] and [stateB] can hold: a number, or the member of
    [Object.prototype] found under [key] (a function, or the prototype
    object itself for [__proto__]); different keys give different
    objects. *)
Inductive state_value : Type :=
  | Rank (n : Z)
  | Member (key : string).

(** [stateOrder[j.state] ?? 4]: an inherited member is not nullish, so
    the default applies only when the key is found nowhere. *)
Definition state_rank (j : job) : state_value :=
  let k := property_key (state j) in
  match stateOrder !! k with
  | Some n => Rank n
  | None => if is_prototype_member k then Member k else Rank 4
  end.

(** A JavaScript number: an integer or NaN. *)
Inductive number : Type :=
  | Num (z : Z)
  | NaN.

(** [x !== y] *)
Definition strict_ne (x y : state_value) : bool :=
  match x, y with
  | Rank n, Rank m => negb (n =? m)
  | Member k, Member k' => negb (String.eqb k k')
  | _, _ => true
  end.

(** [x - y]: a function or an object converts to NaN. *)
Definition minus (x y : state_value) : number :=
  match x, y with
  | Rank n, Rank m => Num (n - m)
  | _, _ => NaN
  end.

(** The comparator handed to [sort]. *)
Definition compare_jobs (a b : job) : number :=
  let stateA := state_rank a in
  let stateB := state_rank b in
  if strict_ne stateA stateB then minus stateA stateB
  else Num (or_zero (timestamp b) - or_zero (timestamp a)).

(** How [sort] reads the result of its comparator: NaN counts as [+0]. *)
Definition sort_value (v : number) : Z :=
  match v with
  | Num z => z
  | NaN => 0
  end.

Section Sort.
Context {A : Type} (cmp : A -> A -> Z).

(** [x] goes in front of the first element it does not have to follow. *)
Fixpoint sort_insert (x : A) (l : list A) : list A :=
  match l with
  | [] => [x]
  | y :: l' => if cmp x y <=? 0 then x :: l else y :: sort_insert x l'
  end.

(** [Array.prototype.sort] with a comparator.  ECMAScript requires the
    sort to be stable, which fixes its result for a consistent
    comparator; this is the stable insertion sort.  For a comparator
    that is not consistent the standard leaves the order to the
    implementation, and this is then one of the orders it allows. *)
Fixpoint js_sort (l : list A) : list A :=
  match l with
  | [] => []
  | x :: l' => sort_insert x (js_sort l')
  end.
End Sort.

(** [[...r.data].sort((a, b) => ...)] *)
Definition sorted_jobs (data : list job) : list job :=
  js_sort (fun a b => sort_value (compare_jobs a b)) data.

End Jobs.

(** ** Re-enqueue controller *)

Module Reenqueue.

(** Modelled from the spec: the job states of the orchestration core
    (data model, section 3); the service that holds them is not part of
    the console sources. *)
Inductive job_state : Type := Queued | Running | Done | Error.

(** Modelled from the spec: a job record of the store, reduced to the
    identity and state the controller inspects. *)
Record record : Type := JobRecord {
  rec_id : string;
  rec_state : job_state
}.

(** Modelled from the spec: the outcome of the controller for one job. *)
Inductive outcome : Type :=
  | Requeued
  | Skipped (reason : string)
  | Errored (detail : string).

(** Modelled from the spec: the per-job detail of a bulk re-enqueue,
    [{requeued:[ids], skipped:[{id,reason}], errors:[{id,error}]}]. *)
Record report : Type := Report {
  requeued : list string;
  skipped : list (string * string);
  errors : list (string * string)
}.

(** Modelled from the spec: the aggregate [count] object. *)
Record count : Type := Count {
  found : nat;
  n_requeued : nat;
  n_skipped : nat;
  n_errors : nat
}.

Definition empty_report : report :=
  {| requeued := []; skipped := []; errors := [] |}.

Section Controller.
(** The staleness test the design has to define for running jobs. *)
Variable stalled : record -> bool.
(** The failure, if any, of resubmitting the job with the given id. *)
Variable resubmit_error : string -> option string.

(** Modelled from the spec: the eligibility policy of section 4.5.
    [None] means eligible; otherwise the reason for skipping.  Jobs in
    [Error], and [Running] jobs that are stalled, are eligible. *)
Definition skip_reason (j : record) : option string :=
  match rec_state j with
  | Error => None
  | Running => if stalled j then None else Some "job is running"
  | Done => Some "job is already done"
  | Queued => Some "job is already queued"
  end.

(** Modelled from the spec: the store write [set_state(id, state)]. *)
Definition set_state (i : string) (s : job_state)
    (st : gmap string record) : gmap string record :=
  alter (fun r => {| rec_id := rec_id r; rec_state := s |}) i st.

(** Modelled from the spec: [reenqueue_one] on a fetched job: an
    eligible job is reset to [Queued] and resubmitted. *)
Definition reenqueue_one (j : record) (st : gmap string record)
    : outcome * gmap string record :=
  match skip_reason j with
  | Some reason => (Skipped reason, st)
  | None =>
      match resubmit_error (rec_id j) with
      | Some detail => (Errored detail, st)
      | None => (Requeued, set_state (rec_id j) Queued st)
      end
  end.

(** Modelled from the spec: one more entry in the list the outcome of
    job [i] belongs to. *)
Definition record_outcome (i : string) (o : outcome) (r : report) : report :=
  match o with
  | Requeued =>
      {| requeued := requeued r ++ [i]; skipped := skipped r; errors := errors r |}
  | Skipped reason =>
      {| requeued := requeued r; skipped := skipped r ++ [(i, reason)]; errors := errors r |}
  | Errored detail =>
      {| requeued := requeued r; skipped := skipped r; errors := errors r ++ [(i, detail)] |}
  end.

(** Modelled from the spec: the bulk loop; the outcome of one job is
    recorded and the loop goes on to the next, whatever it was. *)
Fixpoint reenqueue_each (jobs : list record) (r : report)
    (st : gmap string record) : report * gmap string record :=
  match jobs with
  | [] => (r, st)
  | j :: rest =>
      let '(o, st') := reenqueue_one j st in
      reenqueue_each rest (record_outcome (rec_id j) o r) st'
  end.

(** Modelled from the spec: [list()], in no particular order. *)
Definition list_jobs (st : gmap string record) : list record :=
  (map_to_list st).*2.

(** Modelled from the spec: [{found, requeued, skipped, errors}]. *)
Definition count_of (n : nat) (r : report) : count :=
  {| found := n;
     n_requeued := length (requeued r);
     n_skipped := length (skipped r);
     n_errors := length (errors r) |}.

(** Modelled from the spec: [reenqueue_all()], which the console reaches
    through [POST /queue/reenqueue]. *)
Definition reenqueue_all (st : gmap string record)
    : count * report * gmap string record :=
  let jobs := list_jobs st in
  let '(r, st') := reenqueue_each jobs empty_report st in
  (count_of (length jobs) r, r, st').

(** The outcome of a job taken on its own. *)
Definition outcome_of (j : record) : outcome :=
  match skip_reason j with
  | Some reason => Skipped reason
  | None =>
      match resubmit_error (rec_id j) with
      | Some detail => Errored detail
      | None => Requeued
      end
  end.

(** The entry a job contributes to each list of the report. *)
Definition requeued_entry (j : record) : option string :=
  match outcome_of j with
  | Requeued => Some (rec_id j)
  | _ => None
  end.

Definition skipped_entry (j : record) : option (string * string) :=
  match outcome_of j with
  | Skipped reason => Some (rec_id j, reason)
  | _ => None
  end.

Definition error_entry (j : record) : option (string * string) :=
  match outcome_of j with
  | Errored detail => Some (rec_id j, detail)
  | _ => None
  end.
End Controller.

(** A store whose keys are the ids of its records. *)
Definition store_of (jobs : list record) : gmap string record :=
  list_to_map ((fun j => (rec_id j, j)) <$> jobs).

End Reenqueue.

(** ** Vocabulary of the specification *)

Module Spec.
Import Queue.

(** The string contains the text [PROGRESS:] directly followed by a digit. *)
Definition contains_marker (s : string) : Prop :=
  exists (a : string) (c : ascii) (b : string),
    s = a +:+ "PROGRESS:" +:+ String c b /\ is_digit c = true.

(** A log line that matches the progress-marker pattern. *)
Definition marker_line (ln : jsval) : Prop :=
  exists s, ln = VStr s /\ contains_marker s.

(** The log lines of a job; a job without a log array has none. *)
Definition log_lines (j : job) : list jsval := default [] (logs j).

(** The first line of [l] that carries a marker, parsed and clamped. *)
Fixpoint first_marker (l : list jsval) : option Z :=
  match l with
  | [] => None
  | ln :: rest =>
      match line_match ln with
      | Some d =>
          match parseInt d with
          | Some v => Some (Z.max 0 (Z.min 100 v))
          | None => first_marker rest
          end
      | None => first_marker rest
      end
  end.

(** A percentage brought back into [0,100]. *)
Definition clamped (n : Z) : Z := Z.max 0 (Z.min 100 n).

(** Scanning from the most recent line backward. *)
Definition latest_marker (l : list jsval) : option Z := first_marker (rev l).

Definition digit_char (n : Z) : ascii := ascii_of_N (Z.to_N (48 + n)).

(** [n] written with two, respectively four, decimal digits. *)
Definition dec2 (n : Z) : string :=
  String (digit_char (n / 10)) (String (digit_char (n mod 10)) EmptyString).

Definition dec4 (n : Z) : string :=
  dec2 (n / 100) +:+ dec2 (n mod 100).

(** The four states of the job state machine. *)
Definition known_state (s : option string) : Prop :=
  s = Some "running" \/ s = Some "queued" \/ s = Some "done" \/ s = Some "error".

(** The job with a missing timestamp replaced by the timestamp 0. *)
Definition with_timestamp_zero (j : job) : job :=
  match timestamp j with
  | Some _ => j
  | None => {| id := id j; state := state j; logs := logs j; timestamp := Some 0 |}
  end.

(** The state of the job names no member of [Object.prototype]. *)
Definition plain_state (j : job) : Prop :=
  Jobs.is_prototype_member (property_key (state j)) = false.

(** The state priority of the job list: running, queued, done, error,
    then everything else. *)
Definition priority (j : job) : Z :=
  match state j with
  | Some s =>
      if String.eqb s "running" then 0
      else if String.eqb s "queued" then 1
      else if String.eqb s "done" then 2
      else if String.eqb s "error" then 3
      else 4
  | None => 4
  end.

(** The timestamp used for recency, 0 for a job that has none. *)
Definition recency (j : job) : Z :=
  match timestamp j with
  | Some t => t
  | None => 0
  end.

(** The order the job list is meant to have: by priority, then the more
    recent job first. *)
Definition by_priority_then_recency (a b : job) : Z :=
  if priority a =? priority b then recency b - recency a
  else priority a - priority b.

End Spec.

(** ** More of the JavaScript library *)

Module JsStd.

(** [s.startsWith(p)] *)
Fixpoint startsWith (s p : string) : bool :=
  match p, s with
  | EmptyString, _ => true
  | String a p', String b s' => Ascii.eqb a b && startsWith s' p'
  | String _ _, EmptyString => false
  end.

(** [s.endsWith(x)]: some tail of [s] is [x]. *)
Fixpoint endsWith (s x : string) : bool :=
  String.eqb s x ||
  match s with
  | String _ s' => endsWith s' x
  | EmptyString => false
  end.

(** [s.includes(x)]: [x] starts at some position of [s]. *)
Fixpoint includes (s x : string) : bool :=
  startsWith s x ||
  match s with
  | String _ s' => includes s' x
  | EmptyString => false
  end.

(** [s.slice(n)] for a position [n] inside [s]. *)
Fixpoint string_drop (n : nat) (s : string) : string :=
  match n, s with
  | S n', String _ s' => string_drop n' s'
  | _, _ => s
  end.

(** [s.replace(/^p+/, '')]: the leading characters in class [p] go. *)
Fixpoint strip_start (p : ascii -> bool) (s : string) : string :=
  match s with
  | String c s' => if p c then strip_start p s' else s
  | EmptyString => EmptyString
  end.

(** [s.replace(/p+$/, '')]: the trailing characters in class [p] go. *)
Fixpoint strip_end (p : ascii -> bool) (s : string) : string :=
  match s with
  | String c s' =>
      match strip_end p s' with
      | EmptyString => if p c then EmptyString else String c EmptyString
      | r => String c r
      end
  | EmptyString => EmptyString
  end.

Definition is_slash (c : ascii) : bool := Ascii.eqb c "/".

(** Truthiness of a string. *)
Definition nonempty (s : string) : bool :=
  match s with
  | EmptyString => false
  | String _ _ => true
  end.

(** Truthiness of an optional string. *)
Definition truthy (s : option string) : bool :=
  match s with
  | Some t => nonempty t
  | None => false
  end.

(** A relative index of [slice]: negative indices count from the end,
    and the result is brought into [0, len]. *)
Definition relative_index (len : nat) (i : Z) : nat :=
  if i <? 0 then Z.to_nat (Z.max (Z.of_nat len + i) 0)
  else Nat.min (Z.to_nat i) len.

(** [l.slice(start, stop)]; [stop] is [None] when it is not given. *)
Definition slice {A : Type} (l : list A) (start : Z) (stop : option Z) : list A :=
  let len := length l in
  let k := relative_index len start in
  let final := match stop with
               | Some e => relative_index len e
               | None => len
               end in
  take (final - k) (drop k l).

End JsStd.

Import JsStd.

(** ** Queue and Jobs components: what a job row shows *)

Module JobRow.

(** The width, in percent, that [ProgressBar] gives to [value]. *)
Definition ProgressBar (value : Z) : Z := Z.max 0 (Z.min 100 value).

(** [<ProgressBar value={estimateProgress(job)} ... />] *)
Definition bar_width (j : job) : Z := ProgressBar (Queue.displayed_progress j).

(** [(j.logs||[]).length > 0 && ... (j.logs||[]).slice(-3)]: the lines of
    the preview, [None] when no preview is rendered. *)
Definition preview (j : job) : option (list jsval) :=
  let lines := default [] (logs j) in
  if Nat.ltb 0 (length lines) then Some (slice lines (-3) None) else None.

(** [history.slice(0, 20)] of the profile page. *)
Definition shown_history {A : Type} (history : list A) : list A :=
  slice history 0 (Some 20).

End JobRow.

(** ** OAuth callback: the code of the callback URL *)

Module OAuth.

Definition is_separator (c : ascii) : bool := Ascii.eqb c "?" || Ascii.eqb c "&".

Definition not_amp (c : ascii) : bool := negb (Ascii.eqb c "&").

(** Greedy [[^&]+] (possibly empty here): the leading characters of [s]
    that satisfy [p]. *)
Fixpoint take_while (p : ascii -> bool) (s : string) : string :=
  match s with
  | String c s' => if p c then String c (take_while p s') else EmptyString
  | EmptyString => EmptyString
  end.

(** [/[?&]code=([^&]+)/] tried at the start of [s]. *)
Definition code_here (s : string) : option string :=
  match s with
  | String c rest =>
      if is_separator c then
        match Queue.strip_prefix "code=" rest with
        | Some r =>
            match take_while not_amp r with
            | EmptyString => None
            | d => Some d
            end
        | None => None
        end
      else None
  | EmptyString => None
  end.

(** [h.match(/[?&]code=([^&]+)/)], capture group 1 of the leftmost match. *)
Fixpoint hash_code (h : string) : option string :=
  match code_here h with
  | Some d => Some d
  | None =>
      match h with
      | String _ h' => hash_code h'
      | EmptyString => None
      end
  end.

(** The code [OAuthCallback] exchanges: [query] is [params.get('code')],
    [hash] is [window.location.hash]; [None] when the callback gives up
    with "No code in callback URL". *)
Definition callback_code (query : option string) (hash : option string)
    : option string :=
  let code :=
    if negb (truthy query) then
      let h := or_string hash "" in
      match hash_code h with
      | Some m1 => Some m1
      | None => query
      end
    else query in
  if negb (truthy code) then None else code.

End OAuth.

(** ** API client: the bearer token *)

Module ApiClient.

(** The two stores [setToken] writes: the default headers of the axios
    instance and the browser's [localStorage]. *)
Record client : Type := Client {
  headers : gmap string string;
  localStorage : gmap string string
}.

Definition setToken (token : option string) (c : client) : client :=
  match token with
  | Some (String _ _ as t) =>
      {| headers := <["Authorization" := "Bearer " +:+ t]> (headers c);
         localStorage := <["token" := t]> (localStorage c) |}
  | _ =>
      {| headers := delete "Authorization" (headers c);
         localStorage := delete "token" (localStorage c) |}
  end.

(** Returns [t] and the client it leaves behind. *)
Definition loadTokenFromStorage (c : client) : option string * client :=
  let t := localStorage c !! "token" in
  if truthy t then (t, setToken t c) else (t, c).

End ApiClient.

(** ** ServicesImages component *)

Module ServicesImages.

Record service : Type := Service {
  svc_id : string;
  svc_name : string;
  repoName : string
}.

Definition SERVICES : list service :=
  [ {| svc_id := "rag"; svc_name := "Rag"; repoName := "rag-service" |};
    {| svc_id := "neuroboss"; svc_name := "Neuroboss"; repoName := "neuroboss-service" |};
    {| svc_id := "agent"; svc_name := "Agent"; repoName := "agent-service" |} ].

(** An image entry of a registry listing. *)
Record image : Type := Image {
  img_name : string;
  img_tags : list string
}.

(** [i.name === svc.repoName || i.name.endsWith('/' + svc.repoName)
     || i.name.includes(svc.repoName)] *)
Definition image_matches (repo : string) (i : image) : bool :=
  String.eqb (img_name i) repo
  || endsWith (img_name i) ("/" +:+ repo)
  || includes (img_name i) repo.

(** The inner loop over the services for one registry: a service that has
    an entry already is passed over. *)
Definition scan_services (services : list service) (reg_id : string)
    (imgs : list image) (info : gmap string (string * image))
    : gmap string (string * image) :=
  foldl (fun info svc =>
           match info !! svc_id svc with
           | Some _ => info
           | None =>
               match List.find (image_matches (repoName svc)) imgs with
               | Some found => <[svc_id svc := (reg_id, found)]> info
               | None => info
               end
           end) info services.

(** The loop over the registries, each given with the images loaded for
    it; the result is what [setServiceImageInfo] receives. *)
Definition service_image_info (regs : list (string * list image))
    : gmap string (string * image) :=
  foldl (fun info reg => scan_services SERVICES reg.1 reg.2 info) ∅ regs.

(** The option value built for tag [t] of an entry: [reg_url] is the URL
    of the registry found for the entry, [None] if there is none;
    [name] is [entry.name]. *)
Definition full_image (reg_url : option string) (name : option string)
    (t : string) : string :=
  let base :=
    match reg_url with
    | Some url => strip_end is_slash url
    | None => EmptyString
    end in
  let repoPath := or_string name "" in
  let repoPath :=
    if nonempty base && startsWith repoPath base
    then strip_start is_slash (string_drop (String.length base) repoPath)
    else repoPath in
  let effectiveRepo := or_string (Some repoPath) (or_string name "") in
  if nonempty base then
    if nonempty effectiveRepo then base +:+ "/" +:+ effectiveRepo +:+ ":" +:+ t
    else base +:+ ":" +:+ t
  else
    if nonempty effectiveRepo then effectiveRepo +:+ ":" +:+ t
    else t.

End ServicesImages.

(** ** BuildForm component: registry and build arguments *)

Module BuildFormInputs.

Record registry : Type := Registry {
  reg_url : string;
  is_default : bool;
  is_authenticated : bool
}.

(** The registry URL preselected when the registries are loaded; [None]
    when [setRegistry] is not called. *)
Definition default_registry (regs : list registry) : option string :=
  match List.find (fun reg => is_default reg && is_authenticated reg) regs with
  | Some defaultReg => Some (reg_url defaultReg)
  | None =>
      match regs with
      | reg0 :: _ => if is_authenticated reg0 then Some (reg_url reg0) else None
      | [] => None
      end
  end.

(** A build argument of the form; [arg_value] is [None] while it is
    [undefined] or [null]. *)
Record build_arg : Type := BuildArg {
  arg_name : string;
  arg_value : option string
}.

(** [buildArgsObject[name] = v] on the object literal: the assignment
    creates or replaces an own property, except under the key
    [__proto__], where it reaches the inherited setter, which ignores a
    string and stores nothing. *)
Definition assign (name v : string) (obj : gmap string string) : gmap string string :=
  if String.eqb name "__proto__" then obj else <[name := v]> obj.

(** The [forEach] that fills [buildArgsObject]; the result holds the own
    properties, which are what the request body carries. *)
Definition buildArgsObject (buildArgs : list build_arg) : gmap string string :=
  foldl (fun obj arg =>
           match arg_value arg with
           | Some (String _ _ as v) => assign (arg_name arg) v obj
           | _ => obj
           end) ∅ buildArgs.

End BuildFormInputs.

(** ** Registry component: adding a registry *)

Module RegistryForm.

(** The form state [addRegistry] reads. *)
Record registry_form : Type := RegistryFormState {
  name : string;
  url : string;
  username : string;
  password : string;
  isDefault : bool;
  useServiceAccount : bool;
  projectId : string
}.

(** The body posted to [/registry]. *)
Record registry_body : Type := RegistryBody {
  body_name : string;
  body_url : string;
  body_username : string;
  body_password : string;
  body_is_default : bool;
  body_use_service_account : bool;
  body_project_id : string
}.

(** How [addRegistry] ends before the response: with one of its two
    alerts, or with the request. *)
Inductive add_outcome : Type :=
  | FillNameAndUrl
  | ProvideCredentials
  | PostRegistry (body : registry_body).

Definition addRegistry (f : registry_form) : add_outcome :=
  if negb (nonempty (name f)) || negb (nonempty (url f)) then FillNameAndUrl
  else if negb (useServiceAccount f)
          && (negb (nonempty (username f)) || negb (nonempty (password f)))
  then ProvideCredentials
  else PostRegistry
         {| body_name := name f;
            body_url := url f;
            body_username := if useServiceAccount f then "" else username f;
            body_password := if useServiceAccount f then "" else password f;
            body_is_default := isDefault f;
            body_use_service_account := useServiceAccount f;
            body_project_id := projectId f |}.

End RegistryForm.

(** ** Vocabulary for the further properties *)

Module Spec2.

(** The first image, in registry order and then in listing order, that
    matches [repo]. *)
Fixpoint first_hit (repo : string) (regs : list (string * list ServicesImages.image))
    : option (string * ServicesImages.image) :=
  match regs with
  | [] => None
  | reg :: rest =>
      match List.find (ServicesImages.image_matches repo) reg.2 with
      | Some found => Some (reg.1, found)
      | None => first_hit repo rest
      end
  end.

(** The header and the stored token agree. *)
Definition in_sync (c : ApiClient.client) : Prop :=
  ApiClient.headers c !! "Authorization"
  = (fun t => "Bearer " +:+ t) <$> ApiClient.localStorage c !! "token".

(** Any character but the letter P. *)
Definition not_P (c : ascii) : bool := negb (Ascii.eqb c "P").

(** [a] has the same priority and the same timestamp as [k] (a missing
    timestamp counting as 0). *)
Definition same_slot (k : job) (a : job) : bool :=
  (Spec.priority a =? Spec.priority k) && (Spec.recency a =? Spec.recency k).

End Spec2.

Import Queue BuildForm Jobs Spec.

(** * Properties *)

(** ** Characters, digits and [parseInt] *)

Section Strings.

Lemma digit_not_space c : is_digit c = true -> is_space c = false.
Proof.
  destruct c as [[] [] [] [] [] [] [] []]; vm_compute; congruence.
Qed.

Lemma digit_value_range c : is_digit c = true -> 0 <= digit_value c <= 9.
Proof.
  destruct c as [[] [] [] [] [] [] [] []]; vm_compute; intuition congruence.
Qed.

Lemma digit_is_tag_char c : is_digit c = true -> tag_first_char c = true /\ tag_char c = true.
Proof.
  destruct c as [[] [] [] [] [] [] [] []]; vm_compute; intuition congruence.
Qed.

Lemma all_chars_cons p c s :
  all_chars p (String c s) = p c && all_chars p s.
Proof. reflexivity. Qed.

Lemma string_app_cons c (s1 s2 : string) :
  String c s1 +:+ s2 = String c (s1 +:+ s2).
Proof. reflexivity. Qed.

Lemma string_app_nil (s : string) : EmptyString +:+ s = s.
Proof. reflexivity. Qed.

Lemma all_chars_app p s1 s2 :
  all_chars p (s1 +:+ s2) = all_chars p s1 && all_chars p s2.
Proof.
  induction s1 as [|c s1 IH]; [reflexivity|].
  rewrite string_app_cons, !all_chars_cons, IH. apply andb_assoc.
Qed.

Lemma string_app_length s1 s2 :
  String.length (s1 +:+ s2) = (String.length s1 + String.length s2)%nat.
Proof.
  induction s1 as [|c s1 IH]; [reflexivity|].
  rewrite string_app_cons. simpl. now rewrite IH.
Qed.

Lemma string_app_assoc (s1 s2 s3 : string) :
  (s1 +:+ s2) +:+ s3 = s1 +:+ (s2 +:+ s3).
Proof.
  induction s1 as [|c s1 IH]; [reflexivity|].
  rewrite !string_app_cons. now rewrite IH.
Qed.

(** On a string that starts with a digit, [parseInt] reads its digits. *)
Lemma parseInt_digits c rest :
  is_digit c = true ->
  parseInt (String c rest) = Some (digits_value 0 (String c rest)).
Proof.
  intros Hc. unfold parseInt.
  assert (Hts : trim_start (String c rest) = String c rest).
  { simpl. now rewrite (digit_not_space c Hc). }
  rewrite Hts.
  assert (Hsign : (match String c rest with
                   | String "-"%char r => (-1, r)
                   | String "+"%char r => (1, r)
                   | _ => (1, String c rest)
                   end) = (1, String c rest)).
  { destruct c as [[] [] [] [] [] [] [] []]; try reflexivity;
      vm_compute in Hc; discriminate. }
  rewrite Hsign, Hc. f_equal. apply Z.mul_1_l.
Qed.

(** Up to three digits denote a number below one thousand. *)
Lemma digits_value_small d :
  all_chars is_digit d = true ->
  (String.length d <= 3)%nat ->
  0 <= digits_value 0 d <= 999.
Proof.
  intros Hd Hlen.
  destruct d as [|a [|b [|c [|e d]]]]; simpl in Hlen; try lia;
    repeat rewrite all_chars_cons in Hd;
    repeat (apply andb_prop in Hd; destruct Hd as [? Hd]);
    simpl;
    repeat match goal with
           | H : is_digit ?x = true |- _ =>
               rewrite H; apply digit_value_range in H
           end; lia.
Qed.

End Strings.

(** ** The progress-marker pattern *)

Section MarkerPattern.

Lemma strip_prefix_Some p s r :
  strip_prefix p s = Some r <-> s = p +:+ r.
Proof.
  revert s. induction p as [|a p IH]; intros s; simpl.
  - split; [intros [= ->] | intros ->]; reflexivity.
  - rewrite string_app_cons. destruct s as [|b s]; [split; discriminate|].
    destruct (Ascii.eqb_spec a b) as [->|Hne].
    + rewrite IH. split; [intros -> | intros [= ->]]; reflexivity.
    + split; [discriminate | intros [= ? ?]; congruence].
Qed.

Lemma take_digits_all n s : all_chars is_digit (take_digits n s) = true.
Proof.
  revert s. induction n as [|n IH]; intros [|c s]; simpl; try reflexivity.
  destruct (is_digit c) eqn:Hc; [|reflexivity].
  now rewrite all_chars_cons, Hc, IH.
Qed.

Lemma take_digits_length n s : (String.length (take_digits n s) <= n)%nat.
Proof.
  revert s. induction n as [|n IH]; intros [|c s]; simpl; try lia.
  destruct (is_digit c); simpl; [specialize (IH s)|]; lia.
Qed.

Lemma take_digits_prefix n s : exists b, s = take_digits n s +:+ b.
Proof.
  revert s. induction n as [|n IH]; intros s.
  - exists s. now destruct s.
  - destruct s as [|c s]; [now exists EmptyString|]. simpl.
    destruct (is_digit c); [|now exists (String c s)].
    destruct (IH s) as [b Hb]. exists b. rewrite string_app_cons. now rewrite <- Hb.
Qed.

Lemma take_digits_nonempty n s :
  take_digits (S n) s <> EmptyString <->
  exists c s', s = String c s' /\ is_digit c = true.
Proof.
  destruct s as [|c s]; simpl.
  - split; [congruence | intros (? & ? & ? & _); discriminate].
  - destruct (is_digit c) eqn:Hc.
    + split; [eauto | discriminate].
    + split; [congruence | intros (? & ? & [= <- _] & ?); congruence].
Qed.

(** The group is greedy: it stops at three digits or at a non-digit. *)
Lemma take_digits_greedy n s b :
  s = take_digits n s +:+ b ->
  String.length (take_digits n s) = n \/
  match b with String c _ => is_digit c = false | EmptyString => True end.
Proof.
  revert s. induction n as [|n IH]; intros s Hs; [now left|].
  destruct s as [|c s]; simpl in *.
  - right. rewrite string_app_nil in Hs. now subst b.
  - destruct (is_digit c) eqn:Hc.
    + rewrite string_app_cons in Hs. injection Hs as Hs.
      destruct (IH s Hs) as [Hl | Hb]; [left; simpl; now rewrite Hl | now right].
    + right. rewrite string_app_nil in Hs. now subst b.
Qed.

(** What a successful match captures: a group of one to three digits that
    follows the text [PROGRESS:] in the line. *)
Lemma match_here_Some s d :
  match_here s = Some d ->
  d <> EmptyString /\ all_chars is_digit d = true /\ (String.length d <= 3)%nat /\
  exists b, s = "PROGRESS:" +:+ d +:+ b.
Proof.
  unfold match_here.
  destruct (strip_prefix "PROGRESS:" s) as [rest|] eqn:Hp; [|discriminate].
  apply strip_prefix_Some in Hp.
  destruct (take_digits 3 rest) as [|c d'] eqn:Ht; [discriminate|].
  intros [= <-]. rewrite <- Ht. repeat split.
  - rewrite Ht. discriminate.
  - apply take_digits_all.
  - apply take_digits_length.
  - destruct (take_digits_prefix 3 rest) as [b Hb]. exists b.
    rewrite Hp at 1. now rewrite Hb at 1.
Qed.

Lemma match_progress_Some s d :
  match_progress s = Some d ->
  d <> EmptyString /\ all_chars is_digit d = true /\ (String.length d <= 3)%nat /\
  exists a b, s = a +:+ "PROGRESS:" +:+ d +:+ b.
Proof.
  induction s as [|x s IH].
  - intros H. vm_compute in H. discriminate.
  - unfold match_progress; fold match_progress.
    destruct (match_here (String x s)) eqn:Hm.
    + intros [= ->]. apply match_here_Some in Hm as (? & ? & ? & b & Hb).
      repeat split; try assumption. now exists EmptyString, b.
    + intros Hs. destruct (IH Hs) as (? & ? & ? & a & b & Hab).
      repeat split; try assumption. exists (String x a), b.
      rewrite string_app_cons. now rewrite Hab.
Qed.

Lemma match_here_marker c b :
  is_digit c = true -> match_here ("PROGRESS:" +:+ String c b) <> None.
Proof.
  intros Hc. unfold match_here.
  replace (strip_prefix "PROGRESS:" ("PROGRESS:" +:+ String c b))
    with (Some (String c b)) by (symmetry; now apply strip_prefix_Some).
  simpl. rewrite Hc. discriminate.
Qed.

(** The matcher finds a marker exactly in the strings that contain one. *)
Lemma match_progress_contains s :
  is_Some (match_progress s) <-> contains_marker s.
Proof.
  split.
  - intros [d Hd]. apply match_progress_Some in Hd as (Hne & Hdig & _ & a & b & Hab).
    destruct d as [|c d]; [congruence|].
    rewrite all_chars_cons in Hdig. apply andb_prop in Hdig as [Hc _].
    exists a, c, (d +:+ b). split; [|exact Hc]. exact Hab.
  - intros (a & c & b & -> & Hc). induction a as [|x a IH].
    + change (EmptyString +:+ "PROGRESS:" +:+ String c b)
        with ("PROGRESS:" +:+ String c b).
      pose proof (match_here_marker c b Hc) as Hm.
      destruct (match_here ("PROGRESS:" +:+ String c b)) as [d|] eqn:E; [|congruence].
      exists d. change ("PROGRESS:" +:+ String c b)
        with (String "P" ("ROGRESS:" +:+ String c b)) in *.
      unfold match_progress; fold match_progress. now rewrite E.
    + change (String x a +:+ "PROGRESS:" +:+ String c b)
        with (String x (a +:+ "PROGRESS:" +:+ String c b)).
      unfold match_progress; fold match_progress.
      destruct (match_here _); [eauto | exact IH].
Qed.

Lemma line_match_marker ln : is_Some (line_match ln) <-> marker_line ln.
Proof.
  unfold marker_line.
  destruct ln as [| | | |s|];
    try solve [split; [intros [? [=]] | intros (? & [=] & _)]].
  change (line_match (VStr s)) with (match_progress s).
  rewrite match_progress_contains.
  split; [eauto | intros (? & [= <-] & ?); assumption].
Qed.

Lemma line_match_None ln : line_match ln = None <-> ~ marker_line ln.
Proof.
  rewrite <- line_match_marker. destruct (line_match ln); split;
    try congruence; intros H; try reflexivity.
  - exfalso. apply H. eauto.
  - intros [? [=]].
Qed.

Lemma line_match_non_string ln : typeof ln <> "string" -> line_match ln = None.
Proof. destruct ln; simpl; try reflexivity. congruence. Qed.

(** The digits captured on a line always parse, to at most 999. *)
Lemma line_match_parse ln d :
  line_match ln = Some d ->
  exists n, parseInt d = Some n /\ 0 <= n <= 999.
Proof.
  intros Hm. assert (Hd : match_progress match ln with VStr s => s | _ => "" end = Some d).
  { destruct ln; try discriminate Hm. exact Hm. }
  apply match_progress_Some in Hd as (Hne & Hdig & Hlen & _).
  destruct d as [|c d]; [congruence|].
  exists (digits_value 0 (String c d)). split.
  - apply parseInt_digits. rewrite all_chars_cons in Hdig. now apply andb_prop in Hdig.
  - now apply digits_value_small.
Qed.

End MarkerPattern.

(** ** The progress extractor *)

Section ProgressExtractor.

Implicit Types (l pre post : list jsval) (ln : jsval).

Lemma clamped_range n : 0 <= clamped n <= 100.
Proof. unfold clamped. lia. Qed.

(** Iterations below the length of [l] do not see what follows [l]. *)
Lemma scan_down_app l post n :
  (n <= length l)%nat -> scan_down (l ++ post) n = scan_down l n.
Proof.
  induction n as [|n IH]; intros Hn; [reflexivity|].
  simpl. rewrite lookup_app_l by lia. rewrite IH by lia. reflexivity.
Qed.

Lemma scan_down_snoc l ln :
  scan_down (l ++ [ln]) (length (l ++ [ln])) =
  match line_match ln with
  | Some d =>
      match parseInt d with
      | Some v => Some (Z.max 0 (Z.min 100 v))
      | None => scan_down l (length l)
      end
  | None => scan_down l (length l)
  end.
Proof.
  rewrite length_app, Nat.add_1_r. simpl scan_down.
  rewrite list_lookup_middle by reflexivity. simpl default.
  rewrite scan_down_app by lia. reflexivity.
Qed.

(** The loop computes the first marker met when the lines are read from
    the last one to the first one. *)
Lemma scan_down_latest l : scan_down l (length l) = latest_marker l.
Proof.
  induction l as [|ln l IH] using rev_ind; [reflexivity|].
  rewrite scan_down_snoc. unfold latest_marker in *.
  rewrite rev_unit. simpl. now rewrite IH.
Qed.

Lemma parseProgress_latest l :
  parseProgressFromLogs (Some l) = latest_marker l.
Proof.
  unfold parseProgressFromLogs. destruct l as [|ln l]; [reflexivity|].
  apply scan_down_latest.
Qed.

Lemma first_marker_skip l1 l2 :
  Forall (fun ln => line_match ln = None) l1 ->
  first_marker (l1 ++ l2) = first_marker l2.
Proof.
  induction 1 as [|ln l1 Hln _ IH]; [reflexivity|].
  simpl. now rewrite Hln.
Qed.

Lemma first_marker_none l :
  Forall (fun ln => line_match ln = None) l -> first_marker l = None.
Proof.
  intros H. rewrite <- (app_nil_r l). now rewrite first_marker_skip.
Qed.

Lemma first_marker_hit ln l d n :
  line_match ln = Some d -> parseInt d = Some n ->
  first_marker (ln :: l) = Some (clamped n).
Proof. intros Hm Hp. simpl. now rewrite Hm, Hp. Qed.

Lemma first_marker_drop l1 ln l2 :
  line_match ln = None ->
  first_marker (l1 ++ ln :: l2) = first_marker (l1 ++ l2).
Proof.
  intros Hln. induction l1 as [|x l1 IH]; simpl.
  - now rewrite Hln.
  - now rewrite IH.
Qed.

Lemma first_marker_Some l v :
  first_marker l = Some v ->
  Exists (fun ln => is_Some (line_match ln)) l /\ 0 <= v <= 100.
Proof.
  induction l as [|ln l IH]; simpl; [discriminate|].
  destruct (line_match ln) as [d|] eqn:Hm.
  - destruct (parseInt d) as [n|] eqn:Hp.
    + intros [= <-]. split; [left; eauto | lia].
    + destruct (line_match_parse ln d Hm) as (n & Hn & _). congruence.
  - intros H. destruct (IH H) as [Hex Hv]. split; [now right | exact Hv].
Qed.

Lemma no_marker_lines l :
  Forall (fun ln => ~ marker_line ln) l <->
  Forall (fun ln => line_match ln = None) l.
Proof. apply Forall_iff. intros ln. symmetry. apply line_match_None. Qed.

Lemma some_marker_line l :
  Exists marker_line l <-> Exists (fun ln => is_Some (line_match ln)) l.
Proof.
  rewrite !Exists_exists.
  split; intros (ln & Hin & Hln); exists ln; (split; [exact Hin|]);
    now apply line_match_marker.
Qed.

(** No marker in the log: nothing is extracted. *)
Lemma parseProgress_no_marker l :
  Forall (fun ln => ~ marker_line ln) l -> parseProgressFromLogs (Some l) = None.
Proof.
  intros H. rewrite parseProgress_latest. unfold latest_marker.
  apply first_marker_none. apply no_marker_lines. now apply Forall_rev.
Qed.

(** The value of the last marker line is what is extracted. *)
Lemma parseProgress_last_marker pre ln post d n :
  line_match ln = Some d -> parseInt d = Some n ->
  Forall (fun x => ~ marker_line x) post ->
  parseProgressFromLogs (Some (pre ++ ln :: post)) = Some (clamped n).
Proof.
  intros Hm Hp Hpost. rewrite parseProgress_latest. unfold latest_marker.
  rewrite rev_app_distr. simpl rev. rewrite <- app_assoc. simpl app.
  rewrite first_marker_skip by (apply no_marker_lines; now apply Forall_rev).
  now apply first_marker_hit with d.
Qed.

(** A line without a marker can be removed without changing the result. *)
Lemma parseProgress_drop pre ln post :
  line_match ln = None ->
  parseProgressFromLogs (Some (pre ++ ln :: post)) =
  parseProgressFromLogs (Some (pre ++ post)).
Proof.
  intros Hln. rewrite !parseProgress_latest. unfold latest_marker.
  rewrite !rev_app_distr. simpl rev. rewrite <- app_assoc. simpl app.
  now apply first_marker_drop.
Qed.

Lemma parseProgress_Some_iff l :
  is_Some (parseProgressFromLogs (Some l)) <-> Exists marker_line l.
Proof.
  split.
  - intros [v Hv]. rewrite parseProgress_latest in Hv.
    apply first_marker_Some in Hv as [Hex _].
    apply some_marker_line. apply Exists_exists in Hex as (ln & Hin & Hln).
    apply Exists_exists. exists ln. split; [|exact Hln].
    apply list_elem_of_In, in_rev, list_elem_of_In. exact Hin.
  - intros Hex. destruct (parseProgressFromLogs (Some l)) eqn:E; [eauto|].
    exfalso. rewrite parseProgress_latest in E.
    apply some_marker_line in Hex. apply Exists_exists in Hex as (ln & Hin & [d Hd]).
    apply list_elem_of_In, in_rev, list_elem_of_In in Hin.
    apply list_elem_of_split in Hin as (l1 & l2 & Hl).
    unfold latest_marker in E. rewrite Hl in E. clear Hl.
    induction l1 as [|x l1 IH]; simpl in E.
    + rewrite Hd in E. destruct (line_match_parse ln d Hd) as (n & Hn & _).
      rewrite Hn in E. discriminate.
    + destruct (line_match x); [destruct (parseInt _); [discriminate|] |]; auto.
Qed.

Lemma parseProgress_range logs v :
  parseProgressFromLogs logs = Some v -> 0 <= v <= 100.
Proof.
  destruct logs as [l|]; [|discriminate].
  rewrite parseProgress_latest. intros H. now apply first_marker_Some in H.
Qed.



(** C6: without a marker line the extractor answers "unknown" ([None]);
    it answers a number exactly when some line matches the pattern. *)
Theorem progress_unknown_iff_no_marker l :
  (Forall (fun ln => ~ marker_line ln) l -> parseProgressFromLogs (Some l) = None) /\
  (is_Some (parseProgressFromLogs (Some l)) <-> Exists marker_line l) /\
  parseProgressFromLogs None = None.
Proof.
  split; [apply parseProgress_no_marker|].
  split; [apply parseProgress_Some_iff | reflexivity].
Qed.

Lemma progress_unknown_iff_no_marker_witness :
  parseProgressFromLogs (Some [VStr "cloning"; VNum 3; VStr "PROGRESS: 5"]) = None.
Proof.
  apply (proj1 (progress_unknown_iff_no_marker
                  [VStr "cloning"; VNum 3; VStr "PROGRESS: 5"])).
  apply no_marker_lines. repeat constructor.
Defined.

(** C9: the extractor is defined on every log array; entries that are not
    strings are skipped; a result, when there is one, lies in [0,100]; a
    marker above 100, such as [PROGRESS:999], gives 100. *)
Theorem progress_total_and_clamped :
  (forall logs, parseProgressFromLogs logs = None \/
                exists v, parseProgressFromLogs logs = Some v /\ 0 <= v <= 100) /\
  (forall pre ln post, typeof ln <> "string" ->
      parseProgressFromLogs (Some (pre ++ ln :: post)) =
      parseProgressFromLogs (Some (pre ++ post))) /\
  (forall pre ln post d n,
      line_match ln = Some d -> parseInt d = Some n -> 100 < n ->
      Forall (fun x => ~ marker_line x) post ->
      parseProgressFromLogs (Some (pre ++ ln :: post)) = Some 100) /\
  parseProgressFromLogs (Some [VStr "PROGRESS:999"]) = Some 100 /\
  parseProgressFromLogs
    (Some [VNum 7; VStr "PROGRESS:40"; VObj; VStr "step 3 PROGRESS:999 done"; VNull])
  = Some 100.
Proof.
  repeat split; try reflexivity.
  - intros logs. destruct (parseProgressFromLogs logs) as [v|] eqn:E; [right | now left].
    exists v. split; [reflexivity|]. now apply parseProgress_range in E.
  - intros pre ln post Hty. apply parseProgress_drop. now apply line_match_non_string.
  - intros pre ln post d n Hm Hp Hn Hpost.
    rewrite (parseProgress_last_marker pre ln post d n Hm Hp Hpost).
    unfold clamped. f_equal. lia.
Qed.

Lemma progress_total_and_clamped_witness :
  parseProgressFromLogs (Some ([VNum 1] ++ VObj :: [VStr "PROGRESS:3"])) =
  parseProgressFromLogs (Some ([VNum 1] ++ [VStr "PROGRESS:3"])) /\
  parseProgressFromLogs (Some ([VNull] ++ VStr "PROGRESS:1234" :: [VStr "x"])) = Some 100.
Proof.
  destruct progress_total_and_clamped as (_ & Hskip & Hclamp & _).
  split.
  - apply Hskip. vm_compute. congruence.
  - apply (Hclamp [VNull] (VStr "PROGRESS:1234") [VStr "x"] "123"%string 123).
    + reflexivity.
    + reflexivity.
    + lia.
    + apply no_marker_lines. repeat constructor.
Defined.

End ProgressExtractor.

(** ** The displayed estimate *)

Section Estimate.


Lemma log_count_lines j : log_count j = Z.of_nat (length (log_lines j)).
Proof. unfold log_count, log_lines. now destruct (logs j). Qed.

Lemma enrich_no_marker j :
  Forall (fun ln => ~ marker_line ln) (log_lines j) -> progress (enrich j) = None.
Proof.
  intros H. unfold enrich. simpl. unfold log_lines in H.
  destruct (logs j) as [l|]; [now apply parseProgress_no_marker | reflexivity].
Qed.



End Estimate.

(** ** Build tags *)

Section Tags.

Lemma or_string_Some (s : string) : or_string (Some s) "" = s.
Proof. now destruct s. Qed.

Lemma string_length_zero (s : string) :
  Nat.eqb (String.length s) 0 = true <-> s = EmptyString.
Proof. destruct s; simpl; split; congruence. Qed.

Lemma validateTag_nonblank raw :
  trim (or_string raw "") <> EmptyString ->
  validateTag raw =
  {| ok := Nat.leb (String.length (trim (or_string raw ""))) 128
           && tag_regex (trim (or_string raw ""));
     value := trim (or_string raw "") |}.
Proof.
  intros Hne. unfold validateTag.
  destruct (Nat.eqb (String.length (trim (or_string raw ""))) 0) eqn:E; [|reflexivity].
  apply string_length_zero in E. contradiction.
Qed.

Lemma validateTag_blank raw :
  trim (or_string raw "") = EmptyString ->
  validateTag raw = {| ok := true; value := "" |}.
Proof. intros H. unfold validateTag. now rewrite H. Qed.

Lemma tag_char_not_space c : tag_char c = true -> is_space c = false.
Proof.
  destruct c as [[] [] [] [] [] [] [] []]; vm_compute; congruence.
Qed.

Lemma tag_first_char_tag_char c : tag_first_char c = true -> tag_char c = true.
Proof.
  unfold tag_first_char, tag_char. intros ->. reflexivity.
Qed.

Lemma trim_end_no_space s :
  all_chars (fun c => negb (is_space c)) s = true -> trim_end s = s.
Proof.
  induction s as [|c s IH]; [reflexivity|].
  rewrite all_chars_cons. intros [Hc Hs]%andb_prop.
  simpl. rewrite (IH Hs). apply negb_true_iff in Hc. rewrite Hc.
  now destruct s.
Qed.

Lemma all_chars_impl (p q : ascii -> bool) s :
  (forall c, p c = true -> q c = true) ->
  all_chars p s = true -> all_chars q s = true.
Proof.
  intros Hpq. induction s as [|c s IH]; [reflexivity|].
  rewrite !all_chars_cons. intros [Hc Hs]%andb_prop.
  now rewrite (Hpq c Hc), (IH Hs).
Qed.

(** A string of tag characters has no white space to trim. *)
Lemma trim_tag_chars s : all_chars tag_char s = true -> trim s = s.
Proof.
  intros Hs. unfold trim.
  assert (Hstart : trim_start s = s).
  { destruct s as [|c s]; [reflexivity|].
    rewrite all_chars_cons in Hs. apply andb_prop in Hs as [Hc _].
    simpl. now rewrite (tag_char_not_space c Hc). }
  rewrite Hstart. apply trim_end_no_space.
  revert Hs. apply all_chars_impl. intros c Hc.
  now rewrite (tag_char_not_space c Hc).
Qed.

Lemma tag_regex_chars t :
  tag_regex t = true -> all_chars tag_char t = true /\ t <> EmptyString.
Proof.
  destruct t as [|c t]; [discriminate|]. simpl.
  intros [Hc Ht]%andb_prop. split; [|discriminate].
  now rewrite all_chars_cons, (tag_first_char_tag_char c Hc), Ht.
Qed.

Lemma submit_rejects now f :
  ok (validateTag (tag f)) = false -> forall t, submit now f <> PostBuild t.
Proof.
  intros Hok t. unfold submit.
  destruct (branchesLoaded f && Nat.eqb (length (branches f)) 0); [discriminate|].
  destruct (Nat.eqb (String.length (branch f)) 0); [discriminate|].
  rewrite Hok. discriminate.
Qed.

(** C3: a (trimmed) non-empty tag is accepted exactly when it has at most
    128 characters and matches [^[A-Za-z0-9_][A-Za-z0-9_.-]*$];
    ["release-1.0"] is accepted, ["bad tag"] is rejected, and a tag of 129
    characters is rejected, so that [submit] posts no build with it. *)
Theorem tag_validation :
  (forall raw, trim (or_string raw "") <> EmptyString ->
     value (validateTag raw) = trim (or_string raw "") /\
     (ok (validateTag raw) = true <->
      (String.length (trim (or_string raw "")) <= 128)%nat /\
      tag_regex (trim (or_string raw "")) = true)) /\
  (forall t : string, tag_regex t = true -> trim (or_string (Some t) "") = t) /\
  ok (validateTag (Some "release-1.0")) = true /\
  ok (validateTag (Some "bad tag")) = false /\
  (forall raw, String.length (trim (or_string raw "")) = 129%nat ->
     ok (validateTag raw) = false /\
     forall now f, tag f = raw -> forall t, submit now f <> PostBuild t) /\
  (forall now f t,
     submit now f = PostBuild t -> trim (or_string (tag f) "") <> EmptyString ->
     t = trim (or_string (tag f) "") /\
     (String.length t <= 128)%nat /\ tag_regex t = true).
Proof.
  split; [|split; [|split; [|split; [|split]]]]; try reflexivity.
  - intros raw Hne. rewrite (validateTag_nonblank raw Hne). simpl. split; [reflexivity|].
    rewrite andb_true_iff, Nat.leb_le. reflexivity.
  - intros t Ht. rewrite or_string_Some. apply trim_tag_chars.
    now apply tag_regex_chars in Ht.
  - intros raw Hlen.
    assert (Hok : ok (validateTag raw) = false).
    { rewrite validateTag_nonblank.
      - simpl. rewrite Hlen. reflexivity.
      - intros E. rewrite E in Hlen. discriminate. }
    split; [exact Hok|].
    intros now f <-. now apply submit_rejects.
  - intros now f t Hsub Hne. unfold submit in Hsub.
    destruct (branchesLoaded f && Nat.eqb (length (branches f)) 0); [discriminate|].
    destruct (Nat.eqb (String.length (branch f)) 0); [discriminate|].
    rewrite (validateTag_nonblank _ Hne) in Hsub. simpl in Hsub.
    destruct (Nat.leb (String.length (trim (or_string (tag f) ""))) 128
              && tag_regex (trim (or_string (tag f) ""))) eqn:Hok;
      [|discriminate].
    apply andb_prop in Hok as [Hlen Hre]. apply Nat.leb_le in Hlen.
    destruct (trim (or_string (tag f) "")) as [|c rest] eqn:Ht; [congruence|].
    injection Hsub as <-. auto.
Qed.

Lemma tag_validation_witness :
  (ok (validateTag (Some " v1.2_rc-3 ")) = true <->
   (String.length (trim (or_string (Some " v1.2_rc-3 ") "")) <= 128)%nat /\
   tag_regex (trim (or_string (Some " v1.2_rc-3 ") "")) = true) /\
  trim (or_string (Some "release-1.0") "") = "release-1.0" /\
  ok (validateTag (Some (repeat_char "a" 129))) = false.
Proof.
  destruct tag_validation as (Hiff & Htrim & _ & _ & Hlong & _).
  split; [|split].
  - apply (Hiff (Some " v1.2_rc-3 ")). vm_compute. discriminate.
  - apply (Htrim "release-1.0"). reflexivity.
  - apply (Hlong (Some (repeat_char "a" 129))). vm_compute. reflexivity.
Defined.

(** C3, read on the tag as it is typed, fails: [" v1"] is not empty and
    does not match the pattern, yet it is accepted; a space followed by
    128 letters is a tag of 129 characters that is accepted, and [submit]
    posts a build with it (under its 128 letters).  White space around
    the tag is dropped before the tag is checked. *)
Lemma tag_validation_counterexample :
  ~ (forall typed : string, typed <> EmptyString ->
       (ok (validateTag (Some typed)) = true <->
        (String.length typed <= 128)%nat /\ tag_regex typed = true)) /\
  ~ (forall (typed : string) now f,
       String.length typed = 129%nat -> tag f = Some typed ->
       ok (validateTag (Some typed)) = false /\
       forall t, submit now f <> PostBuild t) /\
  ok (validateTag (Some " v1")) = true /\ tag_regex " v1" = false /\
  String.length (String " " (repeat_char "a" 128)) = 129%nat /\
  ok (validateTag (Some (String " " (repeat_char "a" 128)))) = true /\
  submit {| getUTCFullYear := 2024; getUTCMonth := 0; getUTCDate := 5;
            getUTCHours := 3; getUTCMinutes := 4; getUTCSeconds := 9 |}
         {| branchesLoaded := true; branches := ["main"]; branch := "main";
            tag := Some (String " " (repeat_char "a" 128)) |}
    = PostBuild (repeat_char "a" 128).
Proof.
  split; [|split; [|repeat split]].
  - intros H.
    assert (Hne : " v1"%string <> EmptyString) by discriminate.
    destruct (proj1 (H " v1"%string Hne) eq_refl) as [_ Hre].
    vm_compute in Hre. discriminate Hre.
  - intros H.
    destruct (H (String " " (repeat_char "a" 128))
                {| getUTCFullYear := 2024; getUTCMonth := 0; getUTCDate := 5;
                   getUTCHours := 3; getUTCMinutes := 4; getUTCSeconds := 9 |}
                {| branchesLoaded := true; branches := ["main"]; branch := "main";
                   tag := Some (String " " (repeat_char "a" 128)) |}
                eq_refl eq_refl) as [Hok _].
    vm_compute in Hok. discriminate Hok.
Qed.

End Tags.

(** ** Generated tags *)

Section GeneratedTags.

Lemma digit_char_is_digit k : 0 <= k <= 9 -> is_digit (digit_char k) = true.
Proof.
  intros Hk.
  assert (Hc : k = 0 \/ k = 1 \/ k = 2 \/ k = 3 \/ k = 4 \/
               k = 5 \/ k = 6 \/ k = 7 \/ k = 8 \/ k = 9) by lia.
  repeat (destruct Hc as [-> | Hc]; [reflexivity|]). now subst.
Qed.

Lemma dec2_digits n : 0 <= n <= 99 -> all_chars is_digit (dec2 n) = true.
Proof.
  intros Hn. unfold dec2. rewrite !all_chars_cons.
  rewrite !digit_char_is_digit; [reflexivity | |];
    Z.to_euclidean_division_equations; lia.
Qed.

Lemma dec4_digits n : 0 <= n <= 9999 -> all_chars is_digit (dec4 n) = true.
Proof.
  intros Hn. unfold dec4. rewrite all_chars_app, !dec2_digits; [reflexivity | |];
    Z.to_euclidean_division_equations; lia.
Qed.

(** [pad] writes a number below one hundred with two digits. *)
Lemma pad_dec2 n : 0 <= n <= 99 -> pad n = dec2 n.
Proof.
  intros Hn.
  assert (Hall : forallb (fun k => String.eqb (pad (Z.of_nat k)) (dec2 (Z.of_nat k)))
                   (seq 0 100) = true) by (vm_compute; reflexivity).
  rewrite forallb_forall in Hall. specialize (Hall (Z.to_nat n)).
  rewrite Z2Nat.id in Hall by lia. apply String.eqb_eq, Hall, in_seq. lia.
Qed.

(** A year from 1000 to 9999 is printed with its four digits. *)
Lemma to_string_dec4 y : 1000 <= y <= 9999 -> to_string y = dec4 y.
Proof.
  intros Hy.
  assert (Hall : forallb (fun q => forallb (fun r =>
                     let k := 100 * Z.of_nat q + Z.of_nat r in
                     String.eqb (to_string k) (dec4 k)) (seq 0 100))
                   (seq 10 90) = true) by (vm_compute; reflexivity).
  rewrite forallb_forall in Hall.
  assert (Hq : 10 <= y / 100 <= 99) by (Z.to_euclidean_division_equations; lia).
  assert (Hr : 0 <= y mod 100 <= 99) by (Z.to_euclidean_division_equations; lia).
  specialize (Hall (Z.to_nat (y / 100))).
  rewrite forallb_forall in Hall.
  assert (Hin : In (Z.to_nat (y / 100)) (seq 10 90)) by (apply in_seq; lia).
  specialize (Hall Hin (Z.to_nat (y mod 100))).
  assert (Hin' : In (Z.to_nat (y mod 100)) (seq 0 100)) by (apply in_seq; lia).
  specialize (Hall Hin'). simpl in Hall.
  rewrite !Z2Nat.id in Hall by lia.
  replace (100 * (y / 100) + y mod 100) with y in Hall
    by (Z.to_euclidean_division_equations; lia).
  now apply String.eqb_eq.
Qed.

Lemma expect_digits_app s1 s2 :
  all_chars is_digit s1 = true ->
  expect_digits (String.length s1) (s1 +:+ s2) = Some s2.
Proof.
  induction s1 as [|c s1 IH]; [reflexivity|].
  rewrite all_chars_cons, string_app_cons. intros [Hc Hs]%andb_prop.
  simpl. now rewrite Hc, IH.
Qed.

Lemma timestamp_regex_shape s1 s2 :
  all_chars is_digit s1 = true -> String.length s1 = 8%nat ->
  all_chars is_digit s2 = true -> String.length s2 = 6%nat ->
  timestamp_regex (s1 +:+ "-" +:+ s2) = true.
Proof.
  intros H1 L1 H2 L2. unfold timestamp_regex.
  rewrite <- L1, expect_digits_app by exact H1.
  change ("-" +:+ s2) with (String "-" s2).
  rewrite <- (string_app_nil s2) at 1.
  replace (EmptyString +:+ s2) with (s2 +:+ EmptyString)
    by (clear; induction s2 as [|c s IH]; [reflexivity | now rewrite string_app_cons, IH]).
  rewrite <- L2, expect_digits_app by exact H2. reflexivity.
Qed.

Lemma tag_regex_shape s1 s2 :
  all_chars is_digit s1 = true -> String.length s1 = 8%nat ->
  all_chars is_digit s2 = true ->
  tag_regex (s1 +:+ "-" +:+ s2) = true.
Proof.
  intros H1 L1 H2.
  destruct s1 as [|c s1]; [discriminate|].
  rewrite all_chars_cons in H1. apply andb_prop in H1 as [Hc H1].
  rewrite string_app_cons. simpl.
  rewrite (proj1 (digit_is_tag_char c Hc)), all_chars_app. simpl.
  assert (Hd : forall s, all_chars is_digit s = true -> all_chars tag_char s = true).
  { intros s. apply all_chars_impl. intros x Hx. now apply digit_is_tag_char. }
  rewrite (Hd s1 H1).
  change ("-" +:+ s2) with (String "-" s2). rewrite all_chars_cons, (Hd s2 H2).
  reflexivity.
Qed.

(** The generated tag, field by field. *)
Lemma generateTag_fields now :
  calendar_date now ->
  generateTag now =
    (dec4 (getUTCFullYear now) +:+ dec2 (getUTCMonth now + 1) +:+ dec2 (getUTCDate now))
    +:+ "-" +:+
    (dec2 (getUTCHours now) +:+ dec2 (getUTCMinutes now) +:+ dec2 (getUTCSeconds now)).
Proof.
  intros (Hy & Hm & Hd & Hh & Hmi & Hs). unfold generateTag.
  rewrite to_string_dec4 by exact Hy. rewrite !pad_dec2 by lia.
  now rewrite !string_app_assoc.
Qed.

(** C4: a submission with a blank tag posts the build under a tag
    generated from the current UTC time as yyyyMMdd-HHmmss; that tag
    matches [^\d{8}-\d{6}$] and passes the tag validation. *)
Theorem blank_tag_is_generated (now : utc_date) (f : form) :
  calendar_date now ->
  branchesLoaded f && Nat.eqb (length (branches f)) 0 = false ->
  branch f <> EmptyString ->
  trim (or_string (tag f) "") = EmptyString ->
  submit now f = PostBuild (generateTag now) /\
  generateTag now =
    dec4 (getUTCFullYear now) +:+ dec2 (getUTCMonth now + 1) +:+ dec2 (getUTCDate now)
    +:+ "-" +:+
    dec2 (getUTCHours now) +:+ dec2 (getUTCMinutes now) +:+ dec2 (getUTCSeconds now) /\
  timestamp_regex (generateTag now) = true /\
  validateTag (Some (generateTag now)) = {| ok := true; value := generateTag now |}.
Proof.
  intros Hnow Hbr Hb Hblank.
  pose proof (generateTag_fields now Hnow) as Hg.
  destruct Hnow as (Hy & Hm & Hd & Hh & Hmi & Hs).
  set (s1 := dec4 (getUTCFullYear now) +:+ dec2 (getUTCMonth now + 1)
             +:+ dec2 (getUTCDate now)) in *.
  set (s2 := dec2 (getUTCHours now) +:+ dec2 (getUTCMinutes now)
             +:+ dec2 (getUTCSeconds now)) in *.
  assert (H1 : all_chars is_digit s1 = true).
  { unfold s1. rewrite !all_chars_app, dec4_digits, !dec2_digits by lia. reflexivity. }
  assert (H2 : all_chars is_digit s2 = true).
  { unfold s2. rewrite !all_chars_app, !dec2_digits by lia. reflexivity. }
  assert (L1 : String.length s1 = 8%nat).
  { unfold s1. rewrite !string_app_length. reflexivity. }
  assert (L2 : String.length s2 = 6%nat).
  { unfold s2. rewrite !string_app_length. reflexivity. }
  assert (Hre : tag_regex (generateTag now) = true).
  { rewrite Hg. now apply tag_regex_shape. }
  repeat split.
  - unfold submit. rewrite Hbr.
    destruct (Nat.eqb (String.length (branch f)) 0) eqn:E.
    { apply string_length_zero in E. contradiction. }
    rewrite (validateTag_blank _ Hblank). reflexivity.
  - rewrite Hg. unfold s1, s2. now rewrite !string_app_assoc.
  - rewrite Hg. now apply timestamp_regex_shape.
  - assert (Htrim : trim (or_string (Some (generateTag now)) "") = generateTag now).
    { rewrite or_string_Some. apply trim_tag_chars. now apply tag_regex_chars in Hre. }
    rewrite validateTag_nonblank; rewrite Htrim.
    + rewrite Hre, Hg, !string_app_length, L1, L2. reflexivity.
    + now apply tag_regex_chars in Hre.
Qed.

Lemma blank_tag_is_generated_witness :
  submit (UtcDate 2024 0 5 3 4 9)
         {| branchesLoaded := true; branches := ["main"]; branch := "main"; tag := Some "  " |}
  = PostBuild "20240105-030409".
Proof.
  apply (blank_tag_is_generated (UtcDate 2024 0 5 3 4 9)
           {| branchesLoaded := true; branches := ["main"]; branch := "main";
              tag := Some "  " |}).
  - unfold calendar_date. simpl. lia.
  - reflexivity.
  - discriminate.
  - reflexivity.
Defined.

End GeneratedTags.

(** ** Sorting with a comparator *)

Section SortFacts.
Context {A : Type} (cmp : A -> A -> Z).
Hypothesis cmp_trans : forall a b c, cmp a b <= 0 -> cmp b c <= 0 -> cmp a c <= 0.
Hypothesis cmp_total : forall a b, cmp a b <= 0 \/ cmp b a <= 0.

Lemma sort_insert_perm x l : Permutation (sort_insert cmp x l) (x :: l).
Proof.
  induction l as [|y l IH]; simpl; [reflexivity|].
  destruct (cmp x y <=? 0); [reflexivity|].
  rewrite IH. apply perm_swap.
Qed.

Lemma js_sort_perm l : Permutation (js_sort cmp l) l.
Proof.
  induction l as [|x l IH]; simpl; [reflexivity|].
  rewrite sort_insert_perm. now constructor.
Qed.

Lemma sort_insert_sorted x l :
  StronglySorted (fun a b => cmp a b <= 0) l ->
  StronglySorted (fun a b => cmp a b <= 0) (sort_insert cmp x l).
Proof.
  induction 1 as [|y l Hl IH Hy]; simpl.
  - repeat constructor.
  - destruct (Z.leb_spec (cmp x y) 0) as [Hxy | Hxy].
    + constructor; [now constructor|].
      constructor; [exact Hxy|].
      eapply Forall_impl; [exact Hy|]. intros z Hz. now apply cmp_trans with y.
    + constructor; [exact IH|].
      rewrite sort_insert_perm. constructor; [|exact Hy].
      destruct (cmp_total x y); lia.
Qed.

Lemma js_sort_sorted l : StronglySorted (fun a b => cmp a b <= 0) (js_sort cmp l).
Proof.
  induction l as [|x l IH]; simpl; [constructor|].
  now apply sort_insert_sorted.
Qed.
End SortFacts.

(** The sort is stable: elements that the comparator does not separate
    keep the order they had. *)
Section Stability.
Context {A : Type} (cmp : A -> A -> Z) (same : A -> bool).
Hypothesis same_tie : forall a b, same a = true -> same b = true -> cmp a b = 0.

Lemma sort_insert_stable x l :
  List.filter same (sort_insert cmp x l) = List.filter same (x :: l).
Proof.
  induction l as [|y l IH]; [reflexivity|].
  simpl sort_insert. destruct (Z.leb_spec (cmp x y) 0) as [Hxy | Hxy]; [reflexivity|].
  simpl in *. rewrite IH.
  destruct (same x) eqn:Hx; [|reflexivity].
  destruct (same y) eqn:Hy; [|reflexivity].
  pose proof (same_tie x y Hx Hy). lia.
Qed.

Lemma js_sort_stable l : List.filter same (js_sort cmp l) = List.filter same l.
Proof.
  induction l as [|x l IH]; [reflexivity|].
  simpl js_sort. rewrite sort_insert_stable. simpl. now rewrite IH.
Qed.
End Stability.

Lemma StronglySorted_lookup_lt {A} (R : A -> A -> Prop) (l : list A) i k a b :
  StronglySorted R l -> (i < k)%nat ->
  l !! i = Some a -> l !! k = Some b -> R a b.
Proof.
  intros Hl. revert i k. induction Hl as [|x l Hl IH Hx]; intros i k Hik Hi Hk.
  - discriminate.
  - destruct k as [|k]; [lia|]. destruct i as [|i]; simpl in *.
    + injection Hi as <-. rewrite Forall_forall in Hx. apply Hx.
      apply list_elem_of_lookup. eauto.
    + apply (IH i k); [lia | assumption..].
Qed.

(** Two comparators that agree on the elements of a list sort it alike. *)
Section SortExt.
Context {A : Type} (f g : A -> A -> Z) (P : A -> Prop).
Hypothesis agree : forall a b, P a -> P b -> f a b = g a b.

Lemma sort_insert_ext x l :
  P x -> Forall P l -> sort_insert f x l = sort_insert g x l.
Proof.
  intros Hx. induction 1 as [|y l Hy Hl IH]; [reflexivity|].
  simpl. rewrite (agree x y Hx Hy), IH. reflexivity.
Qed.

Lemma js_sort_ext l : Forall P l -> js_sort f l = js_sort g l.
Proof.
  induction 1 as [|x l Hx Hl IH]; [reflexivity|].
  simpl. rewrite IH. apply sort_insert_ext; [exact Hx|].
  now rewrite js_sort_perm.
Qed.
End SortExt.

(** ** Ordering of the job list *)

Section JobOrder.

Lemma state_rank_plain j : plain_state j -> state_rank j = Rank (priority j).
Proof.
  unfold plain_state, state_rank, priority. intros Hp.
  destruct (state j) as [s|]; [|reflexivity].
  cbn [property_key] in *.
  destruct (String.eqb_spec s "running") as [->|H1]; [reflexivity|].
  destruct (String.eqb_spec s "queued") as [->|H2]; [reflexivity|].
  destruct (String.eqb_spec s "done") as [->|H3]; [reflexivity|].
  destruct (String.eqb_spec s "error") as [->|H4]; [reflexivity|].
  unfold stateOrder.
  rewrite !lookup_insert_ne by congruence.
  rewrite lookup_singleton_ne by congruence.
  now rewrite Hp.
Qed.

Lemma state_rank_member j :
  is_prototype_member (property_key (state j)) = true ->
  state_rank j = Member (property_key (state j)).
Proof.
  unfold state_rank, is_prototype_member. intros H.
  apply existsb_exists in H as (m & Hin & E).
  apply String.eqb_eq in E. rewrite E. clear E.
  unfold object_prototype_members in Hin. simpl in Hin.
  repeat (destruct Hin as [<- | Hin]; [reflexivity|]).
  destruct Hin.
Qed.

Lemma strict_ne_refl x : strict_ne x x = false.
Proof.
  destruct x as [n|k]; simpl.
  - now rewrite Z.eqb_refl.
  - now rewrite String.eqb_refl.
Qed.

Lemma compare_jobs_refl a : compare_jobs a a = Num 0.
Proof. unfold compare_jobs. rewrite strict_ne_refl. f_equal. lia. Qed.

Lemma or_zero_recency j : or_zero (timestamp j) = recency j.
Proof. unfold recency. now destruct (timestamp j). Qed.

Lemma compare_jobs_plain a b :
  plain_state a -> plain_state b ->
  compare_jobs a b = Num (by_priority_then_recency a b).
Proof.
  intros Ha Hb. unfold compare_jobs, by_priority_then_recency.
  rewrite (state_rank_plain a Ha), (state_rank_plain b Hb), !or_zero_recency.
  simpl. now destruct (priority a =? priority b).
Qed.

Lemma by_priority_le a b :
  by_priority_then_recency a b <= 0 <->
  priority a < priority b \/
  (priority a = priority b /\ recency b <= recency a).
Proof.
  unfold by_priority_then_recency.
  destruct (Z.eqb_spec (priority a) (priority b)); lia.
Qed.

Lemma by_priority_trans a b c :
  by_priority_then_recency a b <= 0 -> by_priority_then_recency b c <= 0 ->
  by_priority_then_recency a c <= 0.
Proof. rewrite !by_priority_le. lia. Qed.

Lemma by_priority_total a b :
  by_priority_then_recency a b <= 0 \/ by_priority_then_recency b a <= 0.
Proof. rewrite !by_priority_le. lia. Qed.

Lemma priority_same a b : state a = state b -> priority a = priority b.
Proof. unfold priority. now intros ->. Qed.

Lemma priority_known j :
  (state j = Some "running" -> priority j = 0) /\
  (state j = Some "queued" -> priority j = 1) /\
  (state j = Some "done" -> priority j = 2) /\
  (state j = Some "error" -> priority j = 3).
Proof. unfold priority. repeat split; intros ->; reflexivity. Qed.

Lemma priority_unknown j : ~ known_state (state j) -> priority j = 4.
Proof.
  unfold known_state, priority. intros Hk.
  destruct (state j) as [s|]; [|reflexivity].
  destruct (String.eqb_spec s "running") as [->|_]; [tauto|].
  destruct (String.eqb_spec s "queued") as [->|_]; [tauto|].
  destruct (String.eqb_spec s "done") as [->|_]; [tauto|].
  destruct (String.eqb_spec s "error") as [->|_]; [tauto|].
  reflexivity.
Qed.

Lemma sorted_jobs_perm data : Permutation (sorted_jobs data) data.
Proof. apply js_sort_perm. Qed.

Lemma sorted_jobs_plain data :
  Forall plain_state data ->
  sorted_jobs data = js_sort by_priority_then_recency data.
Proof.
  intros Hd. unfold sorted_jobs.
  apply (js_sort_ext _ _ plain_state); [|exact Hd].
  intros a b Ha Hb. now rewrite compare_jobs_plain.
Qed.

Lemma sorted_jobs_plain_elem data i a :
  Forall plain_state data -> sorted_jobs data !! i = Some a -> plain_state a.
Proof.
  intros Hd Hi. rewrite <- (sorted_jobs_perm data) in Hd.
  rewrite Forall_forall in Hd. apply Hd.
  apply list_elem_of_lookup. eauto.
Qed.

Lemma sorted_jobs_order data i k a b :
  Forall plain_state data -> (i < k)%nat ->
  sorted_jobs data !! i = Some a -> sorted_jobs data !! k = Some b ->
  by_priority_then_recency a b <= 0.
Proof.
  intros Hd Hik. rewrite (sorted_jobs_plain data Hd). intros Hi Hk.
  apply (StronglySorted_lookup_lt (fun a b => by_priority_then_recency a b <= 0)
           (js_sort by_priority_then_recency data) i k a b); try assumption.
  apply js_sort_sorted; [apply by_priority_trans | apply by_priority_total].
Qed.

(** The comparator does not tell a missing timestamp from timestamp 0. *)
Lemma compare_jobs_timestamp_zero a b :
  compare_jobs a b = compare_jobs (with_timestamp_zero a) (with_timestamp_zero b).
Proof.
  unfold compare_jobs, with_timestamp_zero.
  destruct (timestamp a) eqn:Ea, (timestamp b) eqn:Eb; simpl;
    rewrite ?Ea, ?Eb; reflexivity.
Qed.



End JobOrder.

(** ** Bulk re-enqueue *)

Module ReenqueueFacts.
Import Reenqueue.

Section Bulk.
Variable stalled : record -> bool.
Variable resubmit_error : string -> option string.

Abbreviation outcome_of := (outcome_of stalled resubmit_error).
Abbreviation requeued_entry := (requeued_entry stalled resubmit_error).
Abbreviation skipped_entry := (skipped_entry stalled resubmit_error).
Abbreviation error_entry := (error_entry stalled resubmit_error).
Abbreviation reenqueue_each := (reenqueue_each stalled resubmit_error).
Abbreviation reenqueue_one := (reenqueue_one stalled resubmit_error).

Lemma reenqueue_one_outcome j st : (reenqueue_one j st).1 = outcome_of j.
Proof.
  unfold Reenqueue.reenqueue_one, Reenqueue.outcome_of.
  destruct (skip_reason stalled j); [reflexivity|].
  now destruct (resubmit_error (rec_id j)).
Qed.

Lemma record_outcome_entries j r :
  record_outcome (rec_id j) (outcome_of j) r =
  {| requeued := requeued r ++ omap requeued_entry [j];
     skipped := skipped r ++ omap skipped_entry [j];
     errors := errors r ++ omap error_entry [j] |}.
Proof.
  unfold Reenqueue.requeued_entry, Reenqueue.skipped_entry, Reenqueue.error_entry.
  simpl. destruct (outcome_of j); simpl; now rewrite ?app_nil_r.
Qed.

Lemma reenqueue_each_cons j jobs r st :
  reenqueue_each (j :: jobs) r st =
  reenqueue_each jobs (record_outcome (rec_id j) (reenqueue_one j st).1 r)
                 (reenqueue_one j st).2.
Proof. simpl. now destruct (reenqueue_one j st). Qed.

(** The report of the loop: every job adds its own entry, in turn. *)
Lemma reenqueue_each_report jobs r st :
  (reenqueue_each jobs r st).1 =
  {| requeued := requeued r ++ omap requeued_entry jobs;
     skipped := skipped r ++ omap skipped_entry jobs;
     errors := errors r ++ omap error_entry jobs |}.
Proof.
  revert r st. induction jobs as [|j jobs IH]; intros r st.
  - simpl. rewrite !app_nil_r. now destruct r.
  - assert (Hc : forall (B : Type) (f : record -> option B),
               omap f (j :: jobs) = omap f [j] ++ omap f jobs)
      by (intros B f; apply (omap_app f [j] jobs)).
    rewrite reenqueue_each_cons, IH, reenqueue_one_outcome, record_outcome_entries.
    cbn [requeued skipped errors].
    now rewrite <- !app_assoc, <- !Hc.
Qed.

Lemma entries_length jobs :
  (length (omap requeued_entry jobs) + length (omap skipped_entry jobs)
   + length (omap error_entry jobs))%nat = length jobs.
Proof.
  induction jobs as [|j jobs IH]; [reflexivity|].
  unfold Reenqueue.requeued_entry, Reenqueue.skipped_entry, Reenqueue.error_entry in *.
  unfold omap in *. simpl. destruct (outcome_of j); simpl; lia.
Qed.

Lemma list_jobs_length (st : gmap string record) : length (list_jobs st) = size st.
Proof. unfold list_jobs. now rewrite length_fmap, length_map_to_list. Qed.

Lemma reenqueue_all_report (st : gmap string record) :
  (reenqueue_all stalled resubmit_error st).1 =
  (count_of (length (list_jobs st))
     {| requeued := omap requeued_entry (list_jobs st);
        skipped := omap skipped_entry (list_jobs st);
        errors := omap error_entry (list_jobs st) |},
   {| requeued := omap requeued_entry (list_jobs st);
      skipped := omap skipped_entry (list_jobs st);
      errors := omap error_entry (list_jobs st) |}).
Proof.
  unfold reenqueue_all.
  pose proof (reenqueue_each_report (list_jobs st) empty_report st) as Hr.
  destruct (reenqueue_each (list_jobs st) empty_report st) as [r st1].
  simpl in Hr. subst r. reflexivity.
Qed.

(** Once a record is queued, the rest of the loop leaves it queued. *)
Lemma reenqueue_each_keeps_queued jobs r st i :
  rec_state <$> st !! i = Some Queued ->
  rec_state <$> (reenqueue_each jobs r st).2 !! i = Some Queued.
Proof.
  revert r st. induction jobs as [|j jobs IH]; intros r st Hq; [exact Hq|].
  simpl. unfold Reenqueue.reenqueue_one.
  destruct (skip_reason stalled j); [now apply IH|].
  destruct (resubmit_error (rec_id j)); [now apply IH|].
  apply IH. unfold set_state.
  destruct (decide (rec_id j = i)) as [->|Hne].
  - rewrite lookup_alter_eq. destruct (st !! i); [reflexivity | discriminate].
  - now rewrite lookup_alter_ne.
Qed.

(** A requeued job that is in the store ends in state [Queued]. *)
Lemma reenqueue_each_resets jobs r st j :
  j ∈ jobs -> outcome_of j = Requeued -> is_Some (st !! rec_id j) ->
  rec_state <$> (reenqueue_each jobs r st).2 !! rec_id j = Some Queued.
Proof.
  revert r st. induction jobs as [|x jobs IH]; intros r st Hin Ho Hst.
  - now apply elem_of_nil in Hin.
  - apply elem_of_cons in Hin as [<- | Hin].
    + simpl. unfold Reenqueue.reenqueue_one.
      unfold Reenqueue.outcome_of in Ho.
      destruct (skip_reason stalled j); [discriminate|].
      destruct (resubmit_error (rec_id j)); [discriminate|].
      apply reenqueue_each_keeps_queued. unfold set_state.
      rewrite lookup_alter_eq. destruct Hst as [y ->]. reflexivity.
    + simpl. destruct (reenqueue_one x st) as [o st1] eqn:E.
      apply IH; try assumption.
      unfold Reenqueue.reenqueue_one in E.
      destruct (skip_reason stalled x); [now injection E as <- <-|].
      destruct (resubmit_error (rec_id x)); injection E as <- <-; [assumption|].
      unfold set_state. apply lookup_alter_is_Some. exact Hst.
Qed.
End Bulk.

Lemma list_jobs_store_of (jobs : list record) :
  NoDup (rec_id <$> jobs) -> Permutation (list_jobs (store_of jobs)) jobs.
Proof.
  intros Hnd. unfold list_jobs, store_of.
  rewrite map_to_list_to_map.
  - rewrite <- list_fmap_compose. simpl. now rewrite list_fmap_id.
  - rewrite <- list_fmap_compose. exact Hnd.
Qed.

Lemma skip_reason_eligible stalled j :
  skip_reason stalled j = None <->
  rec_state j = Error \/ (rec_state j = Running /\ stalled j = true).
Proof.
  unfold skip_reason. destruct (rec_state j); [| destruct (stalled j) | |];
    split; intros H; try discriminate; try reflexivity; auto;
    destruct H as [H | [H1 H2]]; congruence.
Qed.

(** C7: the bulk re-enqueue checks every job of [list()], and each job
    ends in exactly one of requeued, skipped (with its reason) and errors
    (with the error detail), the counts adding up to the number found; a
    job that is eligible and whose own resubmission succeeds is requeued
    whatever happens to the others.  For two failed jobs, a stalled
    running one, a finished one and a queued one the counts are
    found 5, requeued 3, skipped 2, errors 0, the two skipped jobs
    carrying different reasons. *)
Theorem reenqueue_all_partitions
    (stalled : record -> bool) (resubmit_error : string -> option string) :
  (forall (st : gmap string record) c r st',
     reenqueue_all stalled resubmit_error st = (c, r, st') ->
     found c = size st /\
     n_requeued c = length (requeued r) /\
     n_skipped c = length (skipped r) /\
     n_errors c = length (errors r) /\
     found c = (n_requeued c + n_skipped c + n_errors c)%nat /\
     (forall i, i ∈ requeued r <->
        exists j, j ∈ list_jobs st /\ rec_id j = i /\
                  (rec_state j = Error \/ (rec_state j = Running /\ stalled j = true)) /\
                  resubmit_error i = None) /\
     (forall i reason, (i, reason) ∈ skipped r <->
        exists j, j ∈ list_jobs st /\ rec_id j = i /\
                  skip_reason stalled j = Some reason) /\
     (forall i detail, (i, detail) ∈ errors r <->
        exists j, j ∈ list_jobs st /\ rec_id j = i /\
                  (rec_state j = Error \/ (rec_state j = Running /\ stalled j = true)) /\
                  resubmit_error i = Some detail) /\
     (forall j, j ∈ list_jobs st ->
        skip_reason stalled j = None -> resubmit_error (rec_id j) = None ->
        rec_id j ∈ requeued r /\
        (is_Some (st !! rec_id j) -> rec_state <$> st' !! rec_id j = Some Queued))) /\
  (forall e1 e2 rn d q,
     NoDup [e1; e2; rn; d; q] ->
     stalled {| rec_id := rn; rec_state := Running |} = true ->
     resubmit_error e1 = None -> resubmit_error e2 = None -> resubmit_error rn = None ->
     exists r st',
       reenqueue_all stalled resubmit_error
         (store_of [ {| rec_id := e1; rec_state := Error |};
                     {| rec_id := e2; rec_state := Error |};
                     {| rec_id := rn; rec_state := Running |};
                     {| rec_id := d; rec_state := Done |};
                     {| rec_id := q; rec_state := Queued |} ])
       = ({| found := 5; n_requeued := 3; n_skipped := 2; n_errors := 0 |}, r, st') /\
       exists reason_d reason_q,
         (d, reason_d) ∈ skipped r /\ (q, reason_q) ∈ skipped r /\ reason_d <> reason_q).
Proof.
  split.
  - intros st c r st' Hall.
    pose proof (reenqueue_all_report stalled resubmit_error st) as Hrep.
    rewrite Hall in Hrep. simpl in Hrep. injection Hrep as -> ->.
    unfold count_of. cbn [found n_requeued n_skipped n_errors requeued skipped errors].
    split; [apply list_jobs_length|].
    do 3 (split; [reflexivity|]).
    split; [symmetry; apply entries_length|].
    split; [|split; [|split]].
    + intros i. rewrite list_elem_of_omap. unfold requeued_entry, outcome_of.
      split.
      * intros (j & Hin & Hj). exists j.
        destruct (skip_reason stalled j) eqn:Hs; [discriminate|].
        destruct (resubmit_error (rec_id j)) eqn:He; [discriminate|].
        injection Hj as <-. apply skip_reason_eligible in Hs. auto.
      * intros (j & Hin & <- & Hs & He). exists j. split; [exact Hin|].
        apply skip_reason_eligible in Hs. now rewrite Hs, He.
    + intros i reason. rewrite list_elem_of_omap. unfold skipped_entry, outcome_of.
      split.
      * intros (j & Hin & Hj). exists j.
        destruct (skip_reason stalled j) eqn:Hs.
        -- injection Hj as <- <-. auto.
        -- destruct (resubmit_error (rec_id j)); discriminate.
      * intros (j & Hin & <- & Hs). exists j. split; [exact Hin|]. now rewrite Hs.
    + intros i detail. rewrite list_elem_of_omap. unfold error_entry, outcome_of.
      split.
      * intros (j & Hin & Hj). exists j.
        destruct (skip_reason stalled j) eqn:Hs; [discriminate|].
        destruct (resubmit_error (rec_id j)) eqn:He; [|discriminate].
        injection Hj as <- <-. apply skip_reason_eligible in Hs. auto.
      * intros (j & Hin & <- & Hs & He). exists j. split; [exact Hin|].
        apply skip_reason_eligible in Hs. now rewrite Hs, He.
    + intros j Hin Hs He.
      assert (Ho : outcome_of stalled resubmit_error j = Requeued)
        by (unfold outcome_of; now rewrite Hs, He).
      split.
      * apply list_elem_of_omap. exists j. split; [exact Hin|].
        unfold requeued_entry. now rewrite Ho.
      * intros Hst. unfold reenqueue_all in Hall.
        pose proof (reenqueue_each_resets stalled resubmit_error
                      (list_jobs st) empty_report st j Hin Ho Hst) as Hq.
        destruct (reenqueue_each stalled resubmit_error (list_jobs st) empty_report st)
          as [r1 st1].
        simpl in Hq. apply (f_equal snd) in Hall. simpl in Hall.
        now rewrite <- Hall.
  - intros e1 e2 rn d q Hnd Hst H1 H2 H3.
    set (jobs := [ {| rec_id := e1; rec_state := Error |};
                   {| rec_id := e2; rec_state := Error |};
                   {| rec_id := rn; rec_state := Running |};
                   {| rec_id := d; rec_state := Done |};
                   {| rec_id := q; rec_state := Queued |} ]).
    pose proof (list_jobs_store_of jobs Hnd) as Hperm.
    pose proof (reenqueue_all_report stalled resubmit_error (store_of jobs)) as Hrep.
    destruct (reenqueue_all stalled resubmit_error (store_of jobs)) as [[c r] st'].
    simpl in Hrep. injection Hrep as -> ->.
    eexists _, st'. split.
    + f_equal. f_equal. unfold count_of.
      cbn [requeued skipped errors]. rewrite !Hperm.
      unfold jobs, requeued_entry, skipped_entry, error_entry, outcome_of, skip_reason.
      simpl. rewrite Hst, H1, H2, H3. reflexivity.
    + exists "job is already done"%string, "job is already queued"%string.
      cbn [skipped]. rewrite !list_elem_of_omap. repeat split.
      * exists {| rec_id := d; rec_state := Done |}. split; [|reflexivity].
        rewrite Hperm. unfold jobs. set_solver.
      * exists {| rec_id := q; rec_state := Queued |}. split; [|reflexivity].
        rewrite Hperm. unfold jobs. set_solver.
      * discriminate.
Qed.

Lemma reenqueue_all_partitions_witness :
  exists r st',
    reenqueue_all (fun _ => true)
      (fun i => if String.eqb i "j2" then Some "queue unreachable"%string else None)
      (store_of [ {| rec_id := "j1"; rec_state := Error |};
                  {| rec_id := "j2"; rec_state := Error |};
                  {| rec_id := "j3"; rec_state := Running |} ])
    = ({| found := 3; n_requeued := 2; n_skipped := 0; n_errors := 1 |}, r, st') /\
    "j1"%string ∈ requeued r /\ "j3"%string ∈ requeued r.
Proof.
  set (stalled := fun _ : record => true).
  set (resubmit_error :=
         fun i => if String.eqb i "j2" then Some "queue unreachable"%string else None).
  set (st := store_of [ {| rec_id := "j1"; rec_state := Error |};
                        {| rec_id := "j2"; rec_state := Error |};
                        {| rec_id := "j3"; rec_state := Running |} ]).
  destruct (reenqueue_all stalled resubmit_error st) as [[c r] st'] eqn:E.
  assert (Hc : c = {| found := 3; n_requeued := 2; n_skipped := 0; n_errors := 1 |})
    by (vm_compute in E; now injection E as <- _ _).
  exists r, st'. split; [now rewrite Hc|].
  destruct (proj1 (reenqueue_all_partitions stalled resubmit_error) st c r st' E)
    as (_ & _ & _ & _ & _ & _ & _ & _ & Hbest).
  split.
  - apply (Hbest {| rec_id := "j1"; rec_state := Error |}).
    + vm_compute. repeat constructor.
    + reflexivity.
    + reflexivity.
  - apply (Hbest {| rec_id := "j3"; rec_state := Running |}).
    + vm_compute. repeat constructor.
    + reflexivity.
    + reflexivity.
Defined.

End ReenqueueFacts.

(** * Further properties of the console code *)

(** ** The progress bar and the marker on a line *)

Module QueueFacts.
Import JobRow Spec2.

Lemma log_count_nonneg j : 0 <= log_count j.
Proof. unfold log_count. destruct (logs j); lia. Qed.

Lemma estimate_range j : 0 <= displayed_progress j <= 100.
Proof.
  unfold displayed_progress, estimateProgress.
  destruct (progress (enrich j)) as [p|] eqn:Hp.
  - unfold enrich in Hp. simpl in Hp. now apply parseProgress_range in Hp.
  - pose proof (log_count_nonneg (base (enrich j))).
    repeat match goal with
           | |- context [if ?b then _ else _] => destruct b
           end; lia.
Qed.

(** X1: whatever the job, the estimate handed to the progress bar lies in
    [0,100], so the bar is drawn with exactly that width. *)
Theorem bar_width_is_estimate (j : job) :
  0 <= displayed_progress j <= 100 /\ bar_width j = displayed_progress j.
Proof.
  pose proof (estimate_range j) as H. split; [exact H|].
  unfold bar_width, ProgressBar. lia.
Qed.

Lemma running_estimate j :
  state j = Some "running" ->
  Forall (fun ln => ~ marker_line ln) (log_lines j) ->
  displayed_progress j = Z.min 95 (5 + 2 * Z.of_nat (length (log_lines j))).
Proof.
  intros Hst Hno. unfold displayed_progress, estimateProgress.
  rewrite (enrich_no_marker j Hno). change (base (enrich j)) with j.
  rewrite Hst. simpl. rewrite log_count_lines. f_equal. lia.
Qed.

(** X2: for running jobs without a marker the estimate grows with the
    number of log lines, stays between 5 and 95, and is 95 exactly from
    45 lines on: such a job is never shown as complete. *)
Theorem running_estimate_monotone (j1 j2 : job) :
  state j1 = Some "running" -> state j2 = Some "running" ->
  Forall (fun ln => ~ marker_line ln) (log_lines j1) ->
  Forall (fun ln => ~ marker_line ln) (log_lines j2) ->
  (length (log_lines j1) <= length (log_lines j2))%nat ->
  displayed_progress j1 <= displayed_progress j2 /\
  5 <= displayed_progress j1 <= 95 /\
  (displayed_progress j1 = 95 <-> (45 <= length (log_lines j1))%nat).
Proof.
  intros S1 S2 N1 N2 Hlen.
  rewrite (running_estimate j1 S1 N1), (running_estimate j2 S2 N2). lia.
Qed.

Lemma running_estimate_monotone_witness :
  displayed_progress
    {| id := "a"; state := Some "running"; logs := Some [VStr "clone"]; timestamp := None |}
  <= displayed_progress
    {| id := "b"; state := Some "running"; logs := Some [VStr "clone"; VStr "build"];
       timestamp := None |}.
Proof.
  refine (proj1 (running_estimate_monotone
    {| id := "a"; state := Some "running"; logs := Some [VStr "clone"]; timestamp := None |}
    {| id := "b"; state := Some "running"; logs := Some [VStr "clone"; VStr "build"];
       timestamp := None |} _ _ _ _ _)).
  - reflexivity.
  - reflexivity.
  - apply no_marker_lines. repeat constructor.
  - apply no_marker_lines. repeat constructor.
  - simpl. lia.
Defined.

Lemma match_here_not_P c s : not_P c = true -> match_here (String c s) = None.
Proof.
  unfold not_P, match_here. intros Hc.
  change (strip_prefix "PROGRESS:" (String c s))
    with (if Ascii.eqb "P" c then strip_prefix "ROGRESS:" s else None).
  rewrite Ascii.eqb_sym. apply negb_true_iff in Hc. now rewrite Hc.
Qed.

Lemma match_progress_skip a m :
  all_chars not_P a = true -> match_progress (a +:+ m) = match_progress m.
Proof.
  induction a as [|c a IH]; [reflexivity|].
  rewrite all_chars_cons, string_app_cons. intros [Hc Ha]%andb_prop.
  unfold match_progress; fold match_progress.
  rewrite (match_here_not_P c _ Hc). now apply IH.
Qed.

Lemma take_digits_exact n d b :
  all_chars is_digit d = true -> (String.length d <= n)%nat ->
  (String.length d = n \/
   match b with String c _ => is_digit c = false | EmptyString => True end) ->
  take_digits n (d +:+ b) = d.
Proof.
  revert n. induction d as [|c d IH]; intros n Hd Hlen Hb.
  - rewrite string_app_nil. destruct n as [|n]; [now destruct b|].
    destruct Hb as [Hb | Hb]; [discriminate|].
    destruct b as [|x b]; [reflexivity|]. simpl. now rewrite Hb.
  - rewrite all_chars_cons in Hd. apply andb_prop in Hd as [Hc Hd].
    destruct n as [|n]; [simpl in Hlen; lia|].
    rewrite string_app_cons. simpl. rewrite Hc. f_equal.
    apply IH; [exact Hd | simpl in Hlen; lia |].
    destruct Hb as [Hb | Hb]; [left; simpl in Hb; lia | now right].
Qed.

(** X3: on a line the leftmost marker decides, and only its first three
    digits: when no [P] precedes the text [PROGRESS:] and the digits [d]
    that follow it are three, or end at a non-digit, the line yields
    exactly [d], whatever comes later on the line. *)
Theorem line_marker_is_leftmost (a d b : string) :
  all_chars not_P a = true ->
  d <> EmptyString -> all_chars is_digit d = true -> (String.length d <= 3)%nat ->
  (String.length d = 3%nat \/
   match b with String c _ => is_digit c = false | EmptyString => True end) ->
  line_match (VStr (a +:+ "PROGRESS:" +:+ d +:+ b)) = Some d.
Proof.
  intros Ha Hne Hd Hlen Hb.
  change (line_match (VStr (a +:+ "PROGRESS:" +:+ d +:+ b)))
    with (match_progress (a +:+ "PROGRESS:" +:+ d +:+ b)).
  rewrite (match_progress_skip a _ Ha).
  assert (Hm : match_here ("PROGRESS:" +:+ d +:+ b) = Some d).
  { unfold match_here.
    replace (strip_prefix "PROGRESS:" ("PROGRESS:" +:+ d +:+ b))
      with (Some (d +:+ b)) by (symmetry; now apply strip_prefix_Some).
    rewrite (take_digits_exact 3 d b Hd Hlen Hb).
    destruct d; [congruence | reflexivity]. }
  change ("PROGRESS:" +:+ d +:+ b) with (String "P" ("ROGRESS:" +:+ d +:+ b)) in *.
  unfold match_progress; fold match_progress. now rewrite Hm.
Qed.

Lemma line_marker_is_leftmost_witness :
  line_match (VStr ("step 4: " +:+ "PROGRESS:" +:+ "250" +:+ "7 then PROGRESS:10"))
  = Some "250"%string.
Proof.
  apply (line_marker_is_leftmost "step 4: " "250" "7 then PROGRESS:10").
  - reflexivity.
  - discriminate.
  - reflexivity.
  - simpl. lia.
  - left. reflexivity.
Defined.

End QueueFacts.

(** ** The job list: comparator, re-sorting, previews *)

Module JobsFacts.
Import JobRow Spec2.

(** X4: on jobs whose state names no member of [Object.prototype] the
    comparator is the order by priority, then recency, and is consistent
    as [sort] requires: a job ties with itself (this for every job),
    swapping the arguments flips the sign, and "not after" is
    transitive.  With a state such as [constructor] it is not
    consistent: such a job ties with an error job and with a running
    job, which do not tie with each other. *)
Theorem compare_jobs_consistent_on_plain_states :
  (forall a, compare_jobs a a = Num 0) /\
  (forall a b, plain_state a -> plain_state b ->
     compare_jobs a b = Num (by_priority_then_recency a b) /\
     compare_jobs b a = Num (- by_priority_then_recency a b)) /\
  (forall a b c, plain_state a -> plain_state b -> plain_state c ->
     sort_value (compare_jobs a b) <= 0 -> sort_value (compare_jobs b c) <= 0 ->
     sort_value (compare_jobs a c) <= 0) /\
  (forall ta tb tc,
     let e := {| id := "e"; state := Some "error"; logs := None; timestamp := ta |} in
     let c := {| id := "c"; state := Some "constructor"; logs := None; timestamp := tb |} in
     let r := {| id := "r"; state := Some "running"; logs := None; timestamp := tc |} in
     sort_value (compare_jobs e c) = 0 /\ sort_value (compare_jobs c r) = 0 /\
     sort_value (compare_jobs e r) = 3).
Proof.
  split; [apply compare_jobs_refl|]. split; [|split].
  - intros a b Ha Hb. rewrite !compare_jobs_plain by assumption.
    split; [reflexivity|]. f_equal. unfold by_priority_then_recency.
    rewrite (Z.eqb_sym (priority b)).
    destruct (priority a =? priority b); lia.
  - intros a b c Ha Hb Hc. rewrite !compare_jobs_plain by assumption.
    apply by_priority_trans.
  - intros ta tb tc. repeat split.
Qed.

Lemma compare_jobs_consistent_on_plain_states_witness :
  sort_value (compare_jobs
    {| id := "a"; state := Some "running"; logs := None; timestamp := Some 5 |}
    {| id := "c"; state := Some "error"; logs := None; timestamp := Some 7 |}) <= 0.
Proof.
  refine (proj1 (proj2 (proj2 compare_jobs_consistent_on_plain_states))
    {| id := "a"; state := Some "running"; logs := None; timestamp := Some 5 |}
    {| id := "b"; state := Some "done"; logs := None; timestamp := None |}
    {| id := "c"; state := Some "error"; logs := None; timestamp := Some 7 |}
    _ _ _ _ _).
  - reflexivity.
  - reflexivity.
  - reflexivity.
  - vm_compute. discriminate.
  - vm_compute. discriminate.
Defined.

Section SortedFixpoint.
Context {A : Type} (cmp : A -> A -> Z).

Lemma sort_insert_head x l :
  Forall (fun y => cmp x y <= 0) l -> sort_insert cmp x l = x :: l.
Proof.
  destruct 1 as [|y l Hy _]; [reflexivity|].
  simpl. destruct (Z.leb_spec (cmp x y) 0); [reflexivity | lia].
Qed.

Lemma js_sort_sorted_id l :
  StronglySorted (fun a b => cmp a b <= 0) l -> js_sort cmp l = l.
Proof.
  induction 1 as [|x l Hl IH Hx]; [reflexivity|].
  simpl. rewrite IH. now apply sort_insert_head.
Qed.
End SortedFixpoint.

(** X5: when no job is in a state that names a member of
    [Object.prototype], sorting the sorted list again changes nothing,
    so the list does not move between two polls that return the same
    jobs in the order shown. *)
Theorem sorted_jobs_idempotent (data : list job) :
  Forall plain_state data ->
  sorted_jobs (sorted_jobs data) = sorted_jobs data.
Proof.
  intros Hd.
  assert (Hs : Forall plain_state (sorted_jobs data))
    by now rewrite sorted_jobs_perm.
  rewrite (sorted_jobs_plain _ Hs), (sorted_jobs_plain _ Hd).
  apply js_sort_sorted_id.
  apply js_sort_sorted; [apply by_priority_trans | apply by_priority_total].
Qed.

Lemma sorted_jobs_idempotent_witness :
  let data :=
    [ {| id := "a"; state := Some "done"; logs := None; timestamp := Some 1700000100 |};
      {| id := "b"; state := Some "cancelled"; logs := None; timestamp := None |};
      {| id := "c"; state := Some "running"; logs := None; timestamp := Some 1700000300 |} ] in
  id <$> sorted_jobs data = ["c"; "a"; "b"] /\
  sorted_jobs (sorted_jobs data) = sorted_jobs data.
Proof.
  intros data. split; [reflexivity|].
  apply (sorted_jobs_idempotent data).
  repeat constructor.
Defined.

Lemma same_slot_tie k a b :
  same_slot k a = true -> same_slot k b = true -> by_priority_then_recency a b = 0.
Proof.
  unfold same_slot, by_priority_then_recency.
  intros [Ra Ta]%andb_prop [Rb Tb]%andb_prop.
  apply Z.eqb_eq in Ra, Ta, Rb, Tb.
  replace (priority a =? priority b) with true
    by (symmetry; apply Z.eqb_eq; lia).
  lia.
Qed.

(** X6: when no job is in a state that names a member of
    [Object.prototype], jobs that have the same state priority and the
    same timestamp (a missing one counting as 0) appear in the order in
    which the server returned them. *)
Theorem sorted_jobs_stable (data : list job) (k : job) :
  Forall plain_state data ->
  List.filter (same_slot k) (sorted_jobs data) = List.filter (same_slot k) data.
Proof.
  intros Hd. rewrite (sorted_jobs_plain _ Hd).
  apply js_sort_stable. apply same_slot_tie.
Qed.

Lemma sorted_jobs_stable_witness :
  let data :=
    [ {| id := "a"; state := Some "done"; logs := None; timestamp := None |};
      {| id := "b"; state := Some "running"; logs := None; timestamp := Some 1700000300 |};
      {| id := "c"; state := Some "done"; logs := None; timestamp := Some 0 |};
      {| id := "d"; state := Some "done"; logs := None; timestamp := Some 1700000100 |};
      {| id := "e"; state := Some "done"; logs := None; timestamp := None |} ] in
  let k := {| id := "k"; state := Some "done"; logs := None; timestamp := Some 0 |} in
  id <$> sorted_jobs data = ["b"; "d"; "a"; "c"; "e"] /\
  id <$> List.filter (same_slot k) data = ["a"; "c"; "e"] /\
  List.filter (same_slot k) (sorted_jobs data) = List.filter (same_slot k) data.
Proof.
  intros data k. split; [reflexivity|]. split; [reflexivity|].
  apply (sorted_jobs_stable data k).
  repeat constructor.
Defined.

(** X26: when no job is in a state that names a member of
    [Object.prototype] (so in particular when every state is one of
    running, queued, done and error), the sorted list holds the same
    jobs, ordered by state priority running (0) < queued (1) < done (2)
    < error (3) < any other state (4): a job of lower priority number
    comes first, and two jobs of the same state are in order of
    decreasing timestamp. *)
Theorem plain_jobs_sorted_by_state_then_recency (data : list job) :
  Forall plain_state data ->
  Permutation (sorted_jobs data) data /\
  (forall i k a b,
     (i < k)%nat ->
     sorted_jobs data !! i = Some a -> sorted_jobs data !! k = Some b ->
     priority a <= priority b /\
     (state a = state b -> recency b <= recency a) /\
     (state a = state b ->
      forall ta tb, timestamp a = Some ta -> timestamp b = Some tb -> tb <= ta)) /\
  (forall i k a b,
     sorted_jobs data !! i = Some a -> sorted_jobs data !! k = Some b ->
     priority a < priority b -> (i < k)%nat) /\
  (forall j,
     (state j = Some "running" -> state_rank j = Rank 0) /\
     (state j = Some "queued" -> state_rank j = Rank 1) /\
     (state j = Some "done" -> state_rank j = Rank 2) /\
     (state j = Some "error" -> state_rank j = Rank 3)).
Proof.
  intros Hd. split; [apply sorted_jobs_perm|]. split; [|split].
  - intros i k a b Hik Hi Hk.
    pose proof (sorted_jobs_order data i k a b Hd Hik Hi Hk) as Hle.
    apply by_priority_le in Hle.
    split; [lia|]. split.
    + intros Hst. apply priority_same in Hst. lia.
    + intros Hst ta tb Ha Hb. apply priority_same in Hst.
      unfold recency in Hle. rewrite Ha, Hb in Hle. lia.
  - intros i k a b Hi Hk Hlt.
    destruct (Nat.lt_trichotomy i k) as [Hik | [-> | Hgt]]; [exact Hik | |].
    + rewrite Hi in Hk. injection Hk as ->. lia.
    + pose proof (sorted_jobs_order data k i b a Hd Hgt Hk Hi) as Hle.
      apply by_priority_le in Hle. lia.
  - intros j. unfold state_rank. repeat split; intros ->; reflexivity.
Qed.

Lemma plain_jobs_sorted_by_state_then_recency_witness :
  let data :=
    [ {| id := "a"; state := Some "done"; logs := None; timestamp := Some 1700000100 |};
      {| id := "b"; state := Some "error"; logs := None; timestamp := Some 1700000900 |};
      {| id := "c"; state := Some "done"; logs := None; timestamp := Some 1700000500 |};
      {| id := "d"; state := Some "running"; logs := None; timestamp := Some 1700000300 |};
      {| id := "e"; state := Some "queued"; logs := None; timestamp := Some 1700000700 |} ] in
  id <$> sorted_jobs data = ["d"; "e"; "c"; "a"; "b"] /\
  forall ta tb, Some 1700000500 = Some ta -> Some 1700000100 = Some tb -> tb <= ta.
Proof.
  intros data. split; [reflexivity|].
  assert (Hd : Forall plain_state data) by repeat constructor.
  refine (proj2 (proj2 (proj1 (proj2 (plain_jobs_sorted_by_state_then_recency data Hd))
            2%nat 3%nat
            {| id := "c"; state := Some "done"; logs := None; timestamp := Some 1700000500 |}
            {| id := "a"; state := Some "done"; logs := None; timestamp := Some 1700000100 |}
            _ _ _)) _).
  - lia.
  - reflexivity.
  - reflexivity.
  - reflexivity.
Defined.

(** X27: when no job is in a state that names a member of
    [Object.prototype], a job whose state is none of running, queued,
    done and error is given priority 4 and comes after every error job.
    A missing timestamp counts as 0: against a job of the same state
    with timestamp [tb] the comparator returns [tb - 0], it returns the
    same for every pair of jobs as with the timestamp 0 filled in, and
    the job comes behind the jobs of its state that carry a positive
    timestamp. *)
Theorem plain_unknown_state_and_missing_timestamp (data : list job) :
  Forall plain_state data ->
  (forall j, plain_state j -> ~ known_state (state j) -> state_rank j = Rank 4) /\
  (forall i k a b,
     sorted_jobs data !! i = Some a -> sorted_jobs data !! k = Some b ->
     ~ known_state (state a) -> state b = Some "error" -> (k < i)%nat) /\
  (forall a b tb,
     plain_state a -> state b = state a ->
     timestamp a = None -> timestamp b = Some tb ->
     compare_jobs a b = Num tb /\ compare_jobs b a = Num (- tb)) /\
  (forall a b,
     compare_jobs a b = compare_jobs (with_timestamp_zero a) (with_timestamp_zero b)) /\
  (forall i k a b tb,
     sorted_jobs data !! i = Some a -> sorted_jobs data !! k = Some b ->
     timestamp a = None -> state b = state a ->
     timestamp b = Some tb -> 0 < tb -> (k < i)%nat).
Proof.
  intros Hd.
  split; [|split; [|split; [|split; [apply compare_jobs_timestamp_zero|]]]].
  - intros j Hp Hk. rewrite (state_rank_plain j Hp). f_equal.
    now apply priority_unknown.
  - intros i k a b Hi Hk Ha Hb.
    apply priority_unknown in Ha. apply priority_known in Hb.
    destruct (Nat.lt_trichotomy i k) as [Hlt | [-> | Hgt]]; [| |exact Hgt].
    + pose proof (sorted_jobs_order data i k a b Hd Hlt Hi Hk) as Hle.
      apply by_priority_le in Hle. lia.
    + rewrite Hi in Hk. injection Hk as ->. lia.
  - intros a b tb Ha Hst Hta Htb.
    assert (Hb : plain_state b) by (unfold plain_state in *; now rewrite Hst).
    rewrite !compare_jobs_plain by assumption.
    unfold by_priority_then_recency, recency.
    rewrite (priority_same b a Hst), Z.eqb_refl, Hta, Htb.
    split; f_equal; lia.
  - intros i k a b tb Hi Hk Ha Hst Hb Htb.
    apply priority_same in Hst.
    destruct (Nat.lt_trichotomy i k) as [Hlt | [-> | Hgt]]; [| |exact Hgt].
    + pose proof (sorted_jobs_order data i k a b Hd Hlt Hi Hk) as Hle.
      apply by_priority_le in Hle. unfold recency in Hle.
      rewrite Ha, Hb in Hle. lia.
    + rewrite Hi in Hk. injection Hk as ->. rewrite Ha in Hb. discriminate.
Qed.

Lemma plain_unknown_state_and_missing_timestamp_witness :
  let data :=
    [ {| id := "a"; state := Some "cancelled"; logs := None; timestamp := Some 1700000900 |};
      {| id := "b"; state := Some "done"; logs := None; timestamp := None |};
      {| id := "c"; state := Some "error"; logs := None; timestamp := Some 1700000100 |};
      {| id := "d"; state := None; logs := None; timestamp := None |};
      {| id := "e"; state := Some "done"; logs := None; timestamp := Some 1700000500 |} ] in
  id <$> sorted_jobs data = ["e"; "b"; "c"; "a"; "d"] /\ (2 < 3)%nat /\ (0 < 1)%nat /\
  compare_jobs {| id := "b"; state := Some "done"; logs := None; timestamp := None |}
               {| id := "e"; state := Some "done"; logs := None;
                  timestamp := Some 1700000500 |} = Num 1700000500.
Proof.
  intros data. split; [reflexivity|].
  assert (Hd : Forall plain_state data) by repeat constructor.
  destruct (plain_unknown_state_and_missing_timestamp data Hd)
    as (_ & Hlast & Hzero & _ & Hold).
  split; [|split].
  - apply (Hlast 3%nat 2%nat
             {| id := "a"; state := Some "cancelled"; logs := None;
                timestamp := Some 1700000900 |}
             {| id := "c"; state := Some "error"; logs := None;
                timestamp := Some 1700000100 |}).
    + reflexivity.
    + reflexivity.
    + unfold known_state. simpl. intuition discriminate.
    + reflexivity.
  - apply (Hold 1%nat 0%nat
             {| id := "b"; state := Some "done"; logs := None; timestamp := None |}
             {| id := "e"; state := Some "done"; logs := None;
                timestamp := Some 1700000500 |} 1700000500).
    + reflexivity.
    + reflexivity.
    + reflexivity.
    + reflexivity.
    + reflexivity.
    + lia.
  - apply (Hzero
             {| id := "b"; state := Some "done"; logs := None; timestamp := None |}
             {| id := "e"; state := Some "done"; logs := None;
                timestamp := Some 1700000500 |} 1700000500).
    + reflexivity.
    + reflexivity.
    + reflexivity.
    + reflexivity.
Defined.

Lemma slice_last {A} (l : list A) (n : nat) :
  slice l (- Z.of_nat (S n)) None = drop (length l - S n) l.
Proof.
  unfold slice, relative_index.
  replace (- Z.of_nat (S n) <? 0) with true by (symmetry; apply Z.ltb_lt; lia).
  replace (Z.to_nat (Z.max (Z.of_nat (length l) + - Z.of_nat (S n)) 0))
    with (length l - S n)%nat by lia.
  apply take_ge. rewrite length_drop. lia.
Qed.

Lemma slice_first {A} (l : list A) (n : nat) :
  slice l 0 (Some (Z.of_nat n)) = take n l.
Proof.
  unfold slice, relative_index. simpl (0 <? 0). cbn iota.
  replace (Z.of_nat n <? 0) with false by (symmetry; apply Z.ltb_ge; lia).
  rewrite Nat2Z.id. simpl (Z.to_nat 0). rewrite Nat.min_0_l, Nat.sub_0_r, drop_0.
  destruct (Nat.le_ge_cases n (length l)) as [H|H].
  - now rewrite Nat.min_l.
  - rewrite Nat.min_r by exact H.
    rewrite (take_ge l (length l)) by lia. now rewrite (take_ge l n) by lia.
Qed.

(** X7: the preview of a job row is absent exactly when the job has no
    log lines; otherwise it shows the last lines of the log, in order,
    three of them or all when there are fewer. *)
Theorem preview_last_three (j : job) :
  (preview j = None <-> log_lines j = []) /\
  (forall shown, preview j = Some shown ->
     exists front, log_lines j = front ++ shown /\
                   length shown = Nat.min 3 (length (log_lines j))).
Proof.
  unfold preview. fold (log_lines j).
  destruct (log_lines j) as [|ln l] eqn:E.
  - split; [split; reflexivity | discriminate].
  - split; [split; discriminate|].
    intros shown [= <-]. rewrite <- E.
    change (-3) with (- Z.of_nat 3). rewrite slice_last.
    exists (take (length (log_lines j) - 3) (log_lines j)).
    split; [now rewrite take_drop|].
    rewrite length_drop. lia.
Qed.

Lemma preview_last_three_witness :
  exists front,
    log_lines {| id := "a"; state := None; timestamp := None;
                 logs := Some [VStr "1"; VStr "2"; VStr "3"; VStr "4"] |}
    = front ++ [VStr "2"; VStr "3"; VStr "4"] /\
    length [VStr "2"; VStr "3"; VStr "4"] = Nat.min 3 4.
Proof.
  apply (proj2 (preview_last_three
    {| id := "a"; state := None; timestamp := None;
       logs := Some [VStr "1"; VStr "2"; VStr "3"; VStr "4"] |})).
  reflexivity.
Defined.

(** X8: the profile page shows the first twenty entries of the build
    history, in order, or all of them when there are fewer. *)
Theorem shown_history_first_twenty {A : Type} (history : list A) :
  shown_history history = take 20 history /\
  length (shown_history history) = Nat.min 20 (length history) /\
  exists rest, history = shown_history history ++ rest.
Proof.
  unfold shown_history. change 20 with (Z.of_nat 20). rewrite slice_first.
  split; [reflexivity|]. split; [apply length_take|].
  exists (drop 20 history). now rewrite take_drop.
Qed.

End JobsFacts.

(** ** The OAuth callback *)

Module OAuthFacts.
Import OAuth.

Lemma not_amp_false c : not_amp c = false -> c = "&"%char.
Proof.
  unfold not_amp. intros H. apply negb_false_iff in H. now apply Ascii.eqb_eq in H.
Qed.

Lemma take_while_all p s : all_chars p (take_while p s) = true.
Proof.
  induction s as [|c s IH]; [reflexivity|]. simpl.
  destruct (p c) eqn:Hc; [|reflexivity]. now rewrite all_chars_cons, Hc, IH.
Qed.

Lemma take_while_rest p s :
  exists b, s = take_while p s +:+ b /\
            (b = EmptyString \/ exists c b', b = String c b' /\ p c = false).
Proof.
  induction s as [|c s IH].
  - exists EmptyString. split; [reflexivity | now left].
  - simpl. destruct (p c) eqn:Hc.
    + destruct IH as (b & Hb & Hstop). exists b. split; [|exact Hstop].
      rewrite string_app_cons. now rewrite <- Hb.
    + exists (String c s). split; [reflexivity | right; eauto].
Qed.

Lemma take_while_exact p c b :
  all_chars p c = true ->
  (b = EmptyString \/ exists x b', b = String x b' /\ p x = false) ->
  take_while p (c +:+ b) = c.
Proof.
  intros Hc Hb. induction c as [|x c IH].
  - rewrite string_app_nil. destruct Hb as [-> | (y & b' & -> & Hy)]; [reflexivity|].
    simpl. now rewrite Hy.
  - rewrite all_chars_cons in Hc. apply andb_prop in Hc as [Hx Hc].
    rewrite string_app_cons. simpl. rewrite Hx. f_equal. now apply IH.
Qed.

Lemma code_here_Some s c :
  code_here s = Some c ->
  c <> EmptyString /\ all_chars not_amp c = true /\
  exists sep b,
    is_separator sep = true /\ s = String sep ("code=" +:+ c +:+ b) /\
    (b = EmptyString \/ exists b', b = String "&" b').
Proof.
  unfold code_here. destruct s as [|sep rest]; [discriminate|].
  destruct (is_separator sep) eqn:Hsep; [|discriminate].
  destruct (strip_prefix "code=" rest) as [r|] eqn:Hp; [|discriminate].
  apply strip_prefix_Some in Hp.
  destruct (take_while not_amp r) as [|x d] eqn:Ht; [discriminate|].
  intros [= <-]. rewrite <- Ht.
  split; [rewrite Ht; discriminate|]. split; [apply take_while_all|].
  destruct (take_while_rest not_amp r) as (b & Hb & Hstop).
  exists sep, b. split; [exact Hsep|]. split.
  - rewrite Hp. now rewrite Hb at 1.
  - destruct Hstop as [-> | (y & b' & -> & Hy)]; [now left|].
    right. exists b'. now rewrite (not_amp_false y Hy).
Qed.

Lemma hash_code_nonempty h c : hash_code h = Some c -> c <> EmptyString.
Proof.
  induction h as [|x h IH].
  - intros H. vm_compute in H. discriminate.
  - unfold hash_code; fold hash_code.
    destruct (code_here (String x h)) as [d|] eqn:Hd; [|exact IH].
    intros [= ->]. now apply code_here_Some in Hd.
Qed.

(** X9: a code taken from the hash is never empty and holds no [&]; it is
    the whole text between a [?code=] or [&code=] of the hash and the
    next [&] or the end of the hash. *)
Theorem hash_code_sound (h c : string) :
  hash_code h = Some c ->
  c <> EmptyString /\ all_chars not_amp c = true /\
  exists a sep b,
    is_separator sep = true /\
    h = a +:+ String sep ("code=" +:+ c +:+ b) /\
    (b = EmptyString \/ exists b', b = String "&" b').
Proof.
  induction h as [|x h IH].
  - intros H. vm_compute in H. discriminate.
  - unfold hash_code; fold hash_code.
    destruct (code_here (String x h)) as [d|] eqn:Hd.
    + intros [= ->]. apply code_here_Some in Hd as (Hne & Hall & sep & b & Hs & Heq & Hb).
      repeat split; try assumption. exists EmptyString, sep, b. now rewrite string_app_nil.
    + intros H. destruct (IH H) as (Hne & Hall & a & sep & b & Hs & Heq & Hb).
      repeat split; try assumption. exists (String x a), sep, b.
      rewrite string_app_cons. now rewrite <- Heq.
Qed.

Lemma hash_code_sound_witness :
  "abc123"%string <> EmptyString /\ all_chars not_amp "abc123" = true /\
  exists a sep b,
    is_separator sep = true /\
    "#/oauth_callback?code=abc123&state=x"%string
      = a +:+ String sep ("code=" +:+ "abc123" +:+ b) /\
    (b = EmptyString \/ exists b', b = String "&" b').
Proof.
  apply (hash_code_sound "#/oauth_callback?code=abc123&state=x" "abc123").
  reflexivity.
Defined.

Lemma code_here_not_separator x s :
  is_separator x = false -> code_here (String x s) = None.
Proof. intros H. unfold code_here. now rewrite H. Qed.

Lemma hash_code_skip p s :
  all_chars (fun x => negb (is_separator x)) p = true ->
  hash_code (p +:+ s) = hash_code s.
Proof.
  induction p as [|x p IH]; [reflexivity|].
  rewrite all_chars_cons, string_app_cons. intros [Hx Hp]%andb_prop.
  apply negb_true_iff in Hx.
  unfold hash_code; fold hash_code.
  rewrite (code_here_not_separator x _ Hx). now apply IH.
Qed.

Lemma code_here_exact sep c b :
  is_separator sep = true -> c <> EmptyString -> all_chars not_amp c = true ->
  (b = EmptyString \/ exists b', b = String "&" b') ->
  code_here (String sep ("code=" +:+ c +:+ b)) = Some c.
Proof.
  intros Hsep Hne Hc Hb. unfold code_here. rewrite Hsep.
  replace (strip_prefix "code=" ("code=" +:+ c +:+ b))
    with (Some (c +:+ b)) by (symmetry; now apply strip_prefix_Some).
  rewrite take_while_exact; [destruct c; [congruence | reflexivity] | exact Hc |].
  destruct Hb as [-> | (b' & ->)]; [now left | right; eauto].
Qed.

(** X10: a code put into the hash is read back: when nothing before the
    separator is a [?] or [&], and the code is non-empty, free of [&] and
    followed by [&] or by nothing, the callback finds exactly that code
    (the query string carrying none). *)
Theorem hash_code_round_trip (p : string) (sep : ascii) (c b : string) :
  all_chars (fun x => negb (is_separator x)) p = true ->
  is_separator sep = true ->
  c <> EmptyString -> all_chars not_amp c = true ->
  (b = EmptyString \/ exists b', b = String "&" b') ->
  hash_code (p +:+ String sep ("code=" +:+ c +:+ b)) = Some c /\
  callback_code None (Some (p +:+ String sep ("code=" +:+ c +:+ b))) = Some c.
Proof.
  intros Hp Hsep Hne Hc Hb.
  assert (H : hash_code (p +:+ String sep ("code=" +:+ c +:+ b)) = Some c).
  { rewrite (hash_code_skip p _ Hp). unfold hash_code; fold hash_code.
    now rewrite code_here_exact. }
  split; [exact H|].
  unfold callback_code. rewrite or_string_Some, H.
  change (truthy None) with false. cbn [negb].
  destruct c; [congruence | reflexivity].
Qed.

Lemma hash_code_round_trip_witness :
  callback_code None
    (Some ("#/oauth_callback" +:+ String "?" ("code=" +:+ "4/0Ab_x9" +:+ "&scope=email")))
  = Some "4/0Ab_x9"%string.
Proof.
  apply (hash_code_round_trip "#/oauth_callback" "?" "4/0Ab_x9" "&scope=email").
  - reflexivity.
  - reflexivity.
  - discriminate.
  - reflexivity.
  - right. eauto.
Defined.

(** X11: the callback never goes on with an empty code; a non-empty code
    of the query string is used as it is, and only without one is the
    hash searched. *)
Theorem callback_code_priority (query hash : option string) :
  (forall c, callback_code query hash = Some c -> c <> EmptyString) /\
  (truthy query = true -> callback_code query hash = query) /\
  (truthy query = false ->
   callback_code query hash = hash_code (or_string hash "")).
Proof.
  unfold callback_code. destruct (truthy query) eqn:Hq; simpl negb; cbn iota.
  - rewrite Hq. simpl. split; [|split; [reflexivity | discriminate]].
    intros c ->. now destruct c.
  - destruct (hash_code (or_string hash "")) as [m|] eqn:Hm.
    + pose proof (hash_code_nonempty _ _ Hm) as Hne.
      assert (Ht : truthy (Some m) = true) by (destruct m; [congruence | reflexivity]).
      rewrite Ht. simpl. split; [|split; [discriminate | reflexivity]].
      now intros c [= <-].
    + rewrite Hq. simpl. split; [discriminate | split; [discriminate | reflexivity]].
Qed.

Lemma callback_code_priority_witness :
  callback_code (Some "q1") (Some "#/cb?code=h1") = Some "q1"%string /\
  callback_code (Some "") (Some "#/cb?code=h1") = hash_code (or_string (Some "#/cb?code=h1") "").
Proof.
  split.
  - apply (proj1 (proj2 (callback_code_priority (Some "q1") (Some "#/cb?code=h1")))).
    reflexivity.
  - apply (proj2 (proj2 (callback_code_priority (Some "") (Some "#/cb?code=h1")))).
    reflexivity.
Defined.

End OAuthFacts.

(** ** The bearer token *)

Module ApiClientFacts.
Import ApiClient Spec2.

Lemma setToken_some a r c :
  setToken (Some (String a r)) c =
  {| headers := <["Authorization" := "Bearer " +:+ String a r]> (headers c);
     localStorage := <["token" := String a r]> (localStorage c) |}.
Proof. reflexivity. Qed.

Lemma setToken_falsy tok c :
  truthy tok = false ->
  setToken tok c =
  {| headers := delete "Authorization" (headers c);
     localStorage := delete "token" (localStorage c) |}.
Proof. destruct tok as [[|a r]|]; [reflexivity | discriminate | reflexivity]. Qed.

(** X12: a token that was set is the one a later load finds, and the load
    leaves the client as it is: the header reads [Bearer t] and the
    storage holds [t]. *)
Theorem token_round_trip (t : string) (c : client) :
  t <> EmptyString ->
  loadTokenFromStorage (setToken (Some t) c) = (Some t, setToken (Some t) c) /\
  headers (setToken (Some t) c) !! "Authorization" = Some ("Bearer " +:+ t) /\
  localStorage (setToken (Some t) c) !! "token" = Some t.
Proof.
  intros Hne. destruct t as [|a r]; [congruence|].
  rewrite setToken_some. unfold loadTokenFromStorage. cbn [headers localStorage].
  rewrite !lookup_insert_eq. simpl truthy. cbn iota.
  split; [|split; reflexivity].
  f_equal. rewrite setToken_some. cbn [headers localStorage].
  now rewrite !insert_insert_eq.
Qed.

Lemma token_round_trip_witness :
  loadTokenFromStorage (setToken (Some "tok-1") (Client ∅ ∅))
  = (Some "tok-1"%string, setToken (Some "tok-1") (Client ∅ ∅)).
Proof.
  apply (token_round_trip "tok-1" (Client ∅ ∅)). discriminate.
Defined.

(** X13: [setToken] always leaves the Authorization header and the stored
    token in agreement and touches no other header or storage key; with
    no token (or an empty one) both are removed and a later load finds
    nothing. *)
Theorem setToken_in_sync (tok : option string) (c : client) :
  in_sync (setToken tok c) /\
  (forall k, k <> "Authorization"%string ->
     headers (setToken tok c) !! k = headers c !! k) /\
  (forall k, k <> "token"%string ->
     localStorage (setToken tok c) !! k = localStorage c !! k) /\
  (truthy tok = false ->
     headers (setToken tok c) !! "Authorization" = None /\
     loadTokenFromStorage (setToken tok c) = (None, setToken tok c)).
Proof.
  unfold in_sync. destruct (truthy tok) eqn:Ht.
  - destruct tok as [[|a r]|]; try discriminate. rewrite setToken_some.
    cbn [headers localStorage]. rewrite !lookup_insert_eq.
    split; [reflexivity|]. split; [|split; [|discriminate]].
    + intros k Hk. now rewrite lookup_insert_ne.
    + intros k Hk. now rewrite lookup_insert_ne.
  - rewrite (setToken_falsy tok c Ht). cbn [headers localStorage].
    rewrite !lookup_delete_eq.
    split; [reflexivity|]. split; [|split].
    + intros k Hk. now rewrite lookup_delete_ne.
    + intros k Hk. now rewrite lookup_delete_ne.
    + intros _. split; [reflexivity|].
      unfold loadTokenFromStorage. cbn [localStorage]. now rewrite lookup_delete_eq.
Qed.

Lemma setToken_in_sync_witness :
  headers (setToken (Some "") (Client {[ "Authorization" := "Bearer old" ]}
                                      {[ "token" := "old" ]})) !! "Authorization" = None.
Proof.
  apply (proj2 (proj2 (proj2 (setToken_in_sync (Some "")
           (Client {[ "Authorization" := "Bearer old" ]} {[ "token" := "old" ]}))))).
  reflexivity.
Defined.

(** X14: loading returns what the storage holds under [token] and never
    changes the storage; when that is a non-empty token the Authorization
    header is set to match it, otherwise the client is left untouched. *)
Theorem loadToken_restores_header (c : client) :
  (loadTokenFromStorage c).1 = localStorage c !! "token" /\
  localStorage (loadTokenFromStorage c).2 = localStorage c /\
  (forall t, localStorage c !! "token" = Some t -> t <> EmptyString ->
     headers (loadTokenFromStorage c).2 !! "Authorization" = Some ("Bearer " +:+ t) /\
     in_sync (loadTokenFromStorage c).2) /\
  (truthy (localStorage c !! "token") = false -> (loadTokenFromStorage c).2 = c).
Proof.
  unfold loadTokenFromStorage.
  destruct (localStorage c !! "token") as [t|] eqn:Hs.
  - destruct t as [|a r].
    + simpl. split; [reflexivity|]. split; [reflexivity|]. split; [|reflexivity].
      intros t' [= <-] Hne. congruence.
    + simpl truthy. cbn iota. cbn [fst snd]. rewrite setToken_some.
      cbn [headers localStorage].
      split; [reflexivity|]. split; [now apply insert_id|].
      split; [|discriminate].
      intros t' [= <-] _. unfold in_sync. cbn [headers localStorage].
      rewrite !lookup_insert_eq. split; reflexivity.
  - simpl. split; [reflexivity|]. split; [reflexivity|]. split; [discriminate | reflexivity].
Qed.

Lemma loadToken_restores_header_witness :
  headers (loadTokenFromStorage (Client ∅ {[ "token" := "tok-7" ]})).2 !! "Authorization"
  = Some ("Bearer " +:+ "tok-7").
Proof.
  apply (proj1 (proj2 (proj2 (loadToken_restores_header
           (Client ∅ {[ "token" := "tok-7" ]})))) "tok-7").
  - reflexivity.
  - discriminate.
Defined.

End ApiClientFacts.

(** ** Prefixes, suffixes and substrings *)

Module StringFacts.

Lemma string_app_nil_r (s : string) : s +:+ EmptyString = s.
Proof.
  induction s as [|c s IH]; [reflexivity|]. now rewrite string_app_cons, IH.
Qed.

Lemma startsWith_spec s p : startsWith s p = true <-> exists b, s = p +:+ b.
Proof.
  revert s. induction p as [|a p IH]; intros s.
  - simpl. destruct s; split; eauto.
  - destruct s as [|b s]; simpl.
    + split; [discriminate | intros (r & Hr); discriminate].
    + rewrite andb_true_iff, IH. split.
      * intros (Hab & r & ->). apply Ascii.eqb_eq in Hab as ->.
        exists r. now rewrite string_app_cons.
      * intros (r & Hr). rewrite string_app_cons in Hr. injection Hr as -> ->.
        split; [apply Ascii.eqb_refl | eauto].
Qed.

Lemma startsWith_app p r : startsWith (p +:+ r) p = true.
Proof. apply startsWith_spec. eauto. Qed.

Lemma string_drop_app p r : string_drop (String.length p) (p +:+ r) = r.
Proof.
  induction p as [|c p IH]; [now destruct r|].
  rewrite string_app_cons. simpl. exact IH.
Qed.

Lemma includes_nil x : includes EmptyString x = startsWith EmptyString x || false.
Proof. reflexivity. Qed.

Lemma includes_cons c s x :
  includes (String c s) x = startsWith (String c s) x || includes s x.
Proof. reflexivity. Qed.

Lemma includes_spec s x : includes s x = true <-> exists a b, s = a +:+ x +:+ b.
Proof.
  split.
  - induction s as [|c s IH];
      [rewrite includes_nil | rewrite includes_cons];
      rewrite orb_true_iff; intros [H | H].
    + apply startsWith_spec in H as (b & ->). now exists EmptyString, b.
    + discriminate.
    + apply startsWith_spec in H as (b & Hb). exists EmptyString, b.
      now rewrite string_app_nil.
    + destruct (IH H) as (a & b & ->). exists (String c a), b.
      now rewrite string_app_cons.
  - intros (a & b & ->). induction a as [|c a IH].
    + rewrite string_app_nil.
      destruct (x +:+ b) as [|y u] eqn:E;
        [rewrite includes_nil | rewrite includes_cons];
        rewrite <- E, startsWith_app; reflexivity.
    + rewrite string_app_cons, includes_cons, IH. apply orb_true_r.
Qed.

Lemma endsWith_nil x : endsWith EmptyString x = String.eqb EmptyString x || false.
Proof. reflexivity. Qed.

Lemma endsWith_cons c s x :
  endsWith (String c s) x = String.eqb (String c s) x || endsWith s x.
Proof. reflexivity. Qed.

Lemma endsWith_spec s x : endsWith s x = true <-> exists a, s = a +:+ x.
Proof.
  split.
  - induction s as [|c s IH];
      [rewrite endsWith_nil | rewrite endsWith_cons];
      rewrite orb_true_iff; intros [H | H].
    + apply String.eqb_eq in H as <-. now exists EmptyString.
    + discriminate.
    + apply String.eqb_eq in H as <-. now exists EmptyString.
    + destruct (IH H) as (a & ->). exists (String c a). now rewrite string_app_cons.
  - intros (a & ->). induction a as [|c a IH].
    + rewrite string_app_nil.
      destruct x; [rewrite endsWith_nil | rewrite endsWith_cons];
        now rewrite String.eqb_refl.
    + rewrite string_app_cons, endsWith_cons, IH. apply orb_true_r.
Qed.

Lemma endsWith_includes s x : endsWith s x = true -> includes s x = true.
Proof.
  intros (a & ->)%endsWith_spec. apply includes_spec.
  exists a, EmptyString. now rewrite string_app_nil_r.
Qed.

Lemma strip_start_keep p s :
  match s with String c _ => p c = false | EmptyString => True end ->
  strip_start p s = s.
Proof. destruct s as [|c s]; [reflexivity|]. simpl. now intros ->. Qed.

Lemma strip_end_rest p s :
  exists r, s = strip_end p s +:+ r /\ all_chars p r = true.
Proof.
  induction s as [|c s (r & Hr & Hall)].
  - now exists EmptyString.
  - simpl. destruct (strip_end p s) as [|x u] eqn:E.
    + rewrite string_app_nil in Hr. subst r. destruct (p c) eqn:Hc.
      * exists (String c s). split; [reflexivity|]. now rewrite all_chars_cons, Hc.
      * exists s. split; [reflexivity | exact Hall].
    + exists r. split; [|exact Hall]. rewrite string_app_cons. now rewrite <- Hr.
Qed.

Lemma strip_end_last p s a c : strip_end p s = a +:+ String c EmptyString -> p c = false.
Proof.
  revert a. induction s as [|x s IH]; intros a.
  - simpl. destruct a; discriminate.
  - simpl. destruct (strip_end p s) as [|y u] eqn:E.
    + destruct (p x) eqn:Hx.
      * destruct a; discriminate.
      * destruct a as [|a0 a]; [now intros [= <-]|].
        rewrite string_app_cons. intros [= _ H]. destruct a; discriminate.
    + destruct a as [|a0 a].
      * rewrite string_app_nil. intros H. discriminate H.
      * rewrite string_app_cons. intros [= _ H]. now apply (IH a).
Qed.

Lemma strip_end_fixed p s : strip_end p (strip_end p s) = strip_end p s.
Proof.
  induction s as [|c s IH]; [reflexivity|].
  simpl. destruct (strip_end p s) as [|x u] eqn:E.
  - destruct (p c) eqn:Hc; [reflexivity|]. simpl. now rewrite Hc.
  - change (strip_end p (String c (String x u)))
      with (match strip_end p (String x u) with
            | EmptyString => if p c then EmptyString else String c EmptyString
            | r => String c r
            end).
    now rewrite IH.
Qed.

End StringFacts.

(** ** Services and images *)

Module ServicesImagesFacts.
Import ServicesImages Spec2 StringFacts.

(** X15: an image is taken for a service exactly when its name contains
    the service's repository name; the equality and the [endsWith] tests
    of the condition add nothing to the [includes] test. *)
Theorem image_matches_is_includes (repo : string) (i : image) :
  image_matches repo i = includes (img_name i) repo /\
  (image_matches repo i = true <-> exists a b, img_name i = a +:+ repo +:+ b).
Proof.
  assert (H : image_matches repo i = includes (img_name i) repo).
  { unfold image_matches. destruct (includes (img_name i) repo) eqn:Hinc.
    - apply orb_true_r.
    - rewrite orb_false_r.
      destruct (String.eqb_spec (img_name i) repo) as [E|_].
      + rewrite E in Hinc.
        assert (includes repo repo = true)
          by (apply includes_spec; exists EmptyString, EmptyString;
              now rewrite string_app_nil_r).
        congruence.
      + simpl. destruct (endsWith (img_name i) ("/" +:+ repo)) eqn:He; [|reflexivity].
        apply endsWith_spec in He as (a & He).
        assert (includes (img_name i) repo = true).
        { apply includes_spec. exists (a +:+ "/"), EmptyString.
          rewrite string_app_nil_r, He. now rewrite string_app_assoc. }
        congruence. }
  split; [exact H|]. rewrite H. apply includes_spec.
Qed.

Lemma scan_services_frame svcs rid imgs (info : gmap string (string * image)) k :
  k ∉ svc_id <$> svcs ->
  scan_services svcs rid imgs info !! k = info !! k.
Proof.
  unfold scan_services. revert info.
  induction svcs as [|s svcs IH]; intros info Hk; [reflexivity|].
  rewrite fmap_cons, not_elem_of_cons in Hk. destruct Hk as [Hne Hk].
  simpl. rewrite (IH _ Hk).
  destruct (info !! svc_id s); [reflexivity|].
  destruct (List.find (image_matches (repoName s)) imgs); [|reflexivity].
  now rewrite lookup_insert_ne.
Qed.

Lemma scan_services_entry svcs rid imgs (info : gmap string (string * image)) svc :
  NoDup (svc_id <$> svcs) -> svc ∈ svcs ->
  scan_services svcs rid imgs info !! svc_id svc =
  match info !! svc_id svc with
  | Some x => Some x
  | None =>
      match List.find (image_matches (repoName svc)) imgs with
      | Some found => Some (rid, found)
      | None => None
      end
  end.
Proof.
  revert info. induction svcs as [|s svcs IH]; intros info Hnd Hin.
  - now apply elem_of_nil in Hin.
  - rewrite fmap_cons in Hnd. apply NoDup_cons in Hnd as [Hs Hnd].
    apply elem_of_cons in Hin as [-> | Hin].
    + change (scan_services (s :: svcs) rid imgs info)
        with (scan_services svcs rid imgs
                match info !! svc_id s with
                | Some _ => info
                | None =>
                    match List.find (image_matches (repoName s)) imgs with
                    | Some found => <[svc_id s := (rid, found)]> info
                    | None => info
                    end
                end).
      rewrite (scan_services_frame svcs rid imgs _ (svc_id s) Hs).
      destruct (info !! svc_id s) as [x|] eqn:E; [exact E|].
      destruct (List.find (image_matches (repoName s)) imgs);
        [now rewrite lookup_insert_eq | exact E].
    + assert (Hne : svc_id s <> svc_id svc).
      { intros E. apply Hs. rewrite E. now apply list_elem_of_fmap_2. }
      change (scan_services (s :: svcs) rid imgs info)
        with (scan_services svcs rid imgs
                match info !! svc_id s with
                | Some _ => info
                | None =>
                    match List.find (image_matches (repoName s)) imgs with
                    | Some found => <[svc_id s := (rid, found)]> info
                    | None => info
                    end
                end).
      rewrite (IH _ Hnd Hin).
      destruct (info !! svc_id s); [reflexivity|].
      destruct (List.find (image_matches (repoName s)) imgs); [|reflexivity].
      now rewrite lookup_insert_ne.
Qed.

Lemma SERVICES_ids : svc_id <$> SERVICES = ["rag"; "neuroboss"; "agent"]%string.
Proof. reflexivity. Qed.

Lemma SERVICES_NoDup : NoDup (svc_id <$> SERVICES).
Proof.
  rewrite SERVICES_ids.
  repeat (apply NoDup_cons; split;
          [rewrite ?elem_of_cons, elem_of_nil; intuition discriminate|]).
  apply NoDup_nil. exact I.
Qed.

Lemma scan_services_lookup rid imgs (info : gmap string (string * image)) svc :
  svc ∈ SERVICES ->
  scan_services SERVICES rid imgs info !! svc_id svc =
  match info !! svc_id svc with
  | Some x => Some x
  | None =>
      match List.find (image_matches (repoName svc)) imgs with
      | Some found => Some (rid, found)
      | None => None
      end
  end.
Proof. apply scan_services_entry, SERVICES_NoDup. Qed.

Lemma scan_services_other rid imgs (info : gmap string (string * image)) k :
  (forall svc, svc ∈ SERVICES -> svc_id svc <> k) ->
  scan_services SERVICES rid imgs info !! k = info !! k.
Proof.
  intros Hk. apply scan_services_frame.
  intros (svc & -> & Hin)%list_elem_of_fmap. now apply (Hk svc).
Qed.

Lemma info_fold_lookup regs (info : gmap string (string * image)) svc :
  svc ∈ SERVICES ->
  foldl (fun info reg => scan_services SERVICES reg.1 reg.2 info) info regs
    !! svc_id svc =
  match info !! svc_id svc with
  | Some x => Some x
  | None => first_hit (repoName svc) regs
  end.
Proof.
  intros Hsvc. revert info. induction regs as [|reg regs IH]; intros info.
  - simpl. now destruct (info !! svc_id svc).
  - cbn [foldl first_hit]. rewrite IH, (scan_services_lookup _ _ _ _ Hsvc).
    destruct (info !! svc_id svc); [reflexivity|].
    now destruct (List.find (image_matches (repoName svc)) reg.2).
Qed.

Lemma info_fold_other regs (info : gmap string (string * image)) k :
  (forall svc, svc ∈ SERVICES -> svc_id svc <> k) ->
  foldl (fun info reg => scan_services SERVICES reg.1 reg.2 info) info regs !! k
  = info !! k.
Proof.
  intros Hk. revert info. induction regs as [|reg regs IH]; intros info; [reflexivity|].
  cbn [foldl]. rewrite IH. now apply scan_services_other.
Qed.

(** X16: the registry recorded for a service is the first one, in the
    order of the registry list, that lists a matching image, with the
    first matching image of its listing; later registries never replace
    it, and nothing is recorded under any other key. *)
Theorem first_registry_wins (regs : list (string * list image)) :
  (forall svc, svc ∈ SERVICES ->
     service_image_info regs !! svc_id svc = first_hit (repoName svc) regs) /\
  (forall k, (forall svc, svc ∈ SERVICES -> svc_id svc <> k) ->
     service_image_info regs !! k = None).
Proof.
  split.
  - intros svc Hsvc. unfold service_image_info.
    now rewrite (info_fold_lookup regs ∅ svc Hsvc), lookup_empty.
  - intros k Hk. unfold service_image_info.
    now rewrite (info_fold_other regs ∅ k Hk), lookup_empty.
Qed.

Lemma first_registry_wins_witness :
  service_image_info
    [ ("r1", [ {| img_name := "tools/agent-service"; img_tags := ["1"] |} ]);
      ("r2", [ {| img_name := "rag-service"; img_tags := ["2"] |};
               {| img_name := "agent-service"; img_tags := ["3"] |} ]) ]
    !! "agent"
  = first_hit "agent-service"
      [ ("r1", [ {| img_name := "tools/agent-service"; img_tags := ["1"] |} ]);
        ("r2", [ {| img_name := "rag-service"; img_tags := ["2"] |};
                 {| img_name := "agent-service"; img_tags := ["3"] |} ]) ].
Proof.
  apply (proj1 (first_registry_wins _)
           {| svc_id := "agent"; svc_name := "Agent"; repoName := "agent-service" |}).
  unfold SERVICES. set_solver.
Defined.

(** X17: the registry base used in the option values has its trailing
    slashes removed, all of them and nothing else: it does not end with a
    slash, and stripping it again changes nothing. *)
Theorem registry_base_no_trailing_slash (url : string) :
  (exists slashes, url = strip_end is_slash url +:+ slashes /\
                   all_chars is_slash slashes = true) /\
  (forall a, strip_end is_slash url <> a +:+ "/") /\
  strip_end is_slash (strip_end is_slash url) = strip_end is_slash url.
Proof.
  split; [apply strip_end_rest|]. split; [|apply strip_end_fixed].
  intros a E. apply strip_end_last in E. discriminate.
Qed.

Lemma nonempty_true s : s <> EmptyString -> nonempty s = true.
Proof. destruct s; [congruence | reflexivity]. Qed.

Lemma or_string_nonempty s d : s <> EmptyString -> or_string (Some s) d = s.
Proof. destruct s; [congruence | reflexivity]. Qed.

Lemma app_nonempty s r : s <> EmptyString -> nonempty (s +:+ r) = true.
Proof. destruct s; [congruence | reflexivity]. Qed.

Lemma full_image_prefixed url name t rest :
  strip_end is_slash url <> EmptyString ->
  or_string name "" = strip_end is_slash url +:+ rest ->
  full_image (Some url) name t =
    strip_end is_slash url +:+ "/" +:+
    (if nonempty (strip_start is_slash rest) then strip_start is_slash rest
     else strip_end is_slash url +:+ rest) +:+ ":" +:+ t.
Proof.
  unfold full_image. generalize (strip_end is_slash url). intros base Hbase Hn.
  rewrite (nonempty_true base Hbase), Hn, startsWith_app. simpl andb. cbn iota.
  rewrite string_drop_app.
  destruct (strip_start is_slash rest) as [|c r]; cbn [or_string nonempty].
  - now rewrite (app_nonempty base rest Hbase).
  - reflexivity.
Qed.

(** X18: the option value for a registry whose URL, without trailing
    slashes, is a non-empty [base].  If the entry name starts with
    [base] as a string, what follows it, without leading slashes, is
    taken as the repository and the value is [base/repo:tag]; so a name
    [base/repo] gives the same reference as the bare name [repo] and the
    base is not repeated.  If nothing is left after [base] and the
    slashes, the whole name is used and the base is repeated: the name
    [base] itself gives [base/base:tag].  If the name does not start with
    [base], the value is [base/name:tag], and [base:tag] when the name is
    empty or missing. *)
Theorem full_image_registry_cases (url : string) (name : option string) (t : string) :
  strip_end is_slash url <> EmptyString ->
  (forall rest, or_string name "" = strip_end is_slash url +:+ rest ->
     full_image (Some url) name t =
       strip_end is_slash url +:+ "/" +:+
       (if nonempty (strip_start is_slash rest) then strip_start is_slash rest
        else strip_end is_slash url +:+ rest) +:+ ":" +:+ t) /\
  ((forall rest, or_string name "" <> strip_end is_slash url +:+ rest) ->
     full_image (Some url) name t =
       if nonempty (or_string name "")
       then strip_end is_slash url +:+ "/" +:+ or_string name "" +:+ ":" +:+ t
       else strip_end is_slash url +:+ ":" +:+ t) /\
  (forall repo,
     match repo with String c _ => is_slash c = false | EmptyString => False end ->
     full_image (Some url) (Some (strip_end is_slash url +:+ "/" +:+ repo)) t
       = strip_end is_slash url +:+ "/" +:+ repo +:+ ":" +:+ t) /\
  full_image (Some url) (Some (strip_end is_slash url)) t
    = strip_end is_slash url +:+ "/" +:+ strip_end is_slash url +:+ ":" +:+ t.
Proof.
  intros Hbase. split; [|split; [|split]].
  - intros rest. now apply full_image_prefixed.
  - intros Hno. unfold full_image.
    destruct (startsWith (or_string name "") (strip_end is_slash url)) eqn:E.
    { apply startsWith_spec in E as [rest Hrest]. now destruct (Hno rest). }
    rewrite (nonempty_true _ Hbase). simpl andb. cbn iota.
    now destruct (or_string name "").
  - intros repo Hrepo.
    rewrite (full_image_prefixed url _ t ("/" +:+ repo) Hbase).
    + change ("/" +:+ repo) with (String "/" repo).
      change (strip_start is_slash (String "/" repo)) with (strip_start is_slash repo).
      destruct repo as [|c r]; [destruct Hrepo|].
      simpl strip_start. rewrite Hrepo. reflexivity.
    + apply or_string_nonempty.
      destruct (strip_end is_slash url); [congruence | discriminate].
  - rewrite (full_image_prefixed url _ t EmptyString Hbase).
    + simpl strip_start. cbn [nonempty]. now rewrite string_app_nil_r.
    + rewrite string_app_nil_r. now apply or_string_nonempty.
Qed.

Lemma full_image_registry_cases_witness :
  full_image (Some "gcr.io/p/") (Some "gcr.io/p/api") "v1" = "gcr.io/p/api:v1"%string /\
  full_image (Some "gcr.io/p/") (Some "api") "v1" = "gcr.io/p/api:v1"%string /\
  full_image (Some "gcr.io/p/") (Some "gcr.io/p") "v1" = "gcr.io/p/gcr.io/p:v1"%string /\
  full_image (Some "gcr.io/p/") (Some "gcr.io/p2/api") "v1" = "gcr.io/p/2/api:v1"%string /\
  full_image (Some "gcr.io/p/") None "v1" = "gcr.io/p:v1"%string.
Proof.
  assert (Hbase : strip_end is_slash "gcr.io/p/" <> EmptyString)
    by (vm_compute; discriminate).
  split; [|split; [|split; [|split]]].
  - apply (proj1 (proj2 (proj2
      (full_image_registry_cases "gcr.io/p/" None "v1" Hbase))) "api").
    reflexivity.
  - apply (proj1 (proj2
      (full_image_registry_cases "gcr.io/p/" (Some "api") "v1" Hbase))).
    intros rest H. vm_compute in H. discriminate H.
  - apply (proj2 (proj2 (proj2
      (full_image_registry_cases "gcr.io/p/" None "v1" Hbase)))).
  - apply (proj1
      (full_image_registry_cases "gcr.io/p/" (Some "gcr.io/p2/api") "v1" Hbase)
      "2/api").
    reflexivity.
  - apply (proj1 (proj2
      (full_image_registry_cases "gcr.io/p/" None "v1" Hbase))).
    intros rest H. vm_compute in H. discriminate H.
Defined.

(** X19: every option value ends with the tag it stands for, after a
    colon whenever a registry or a repository name is known; with
    neither, it is the bare tag. *)
Theorem full_image_ends_with_tag (reg_url name : option string) (t : string) :
  exists pre,
    full_image reg_url name t = pre +:+ t /\
    (pre = EmptyString \/ exists body, pre = body +:+ ":") /\
    (pre = EmptyString <->
     match reg_url with Some url => strip_end is_slash url | None => EmptyString end
       = EmptyString /\ or_string name "" = EmptyString).
Proof.
  unfold full_image.
  set (base := match reg_url with
               | Some url => strip_end is_slash url
               | None => EmptyString
               end).
  set (name0 := or_string name "").
  set (repoPath := if nonempty base && startsWith name0 base
                   then strip_start is_slash (string_drop (String.length base) name0)
                   else name0).
  set (eff := or_string (Some repoPath) name0).
  assert (Heff : eff = EmptyString -> name0 = EmptyString \/ base <> EmptyString).
  { unfold eff. destruct repoPath eqn:E; simpl; [now left|discriminate]. }
  assert (Heff0 : base = EmptyString -> eff = name0).
  { intros Hb. unfold eff, repoPath. rewrite Hb. simpl. now destruct name0. }
  destruct base as [|b0 base'] eqn:Hb; simpl nonempty; cbn iota.
  - rewrite (Heff0 eq_refl). destruct name0 as [|n0 name'] eqn:Hn; simpl nonempty; cbn iota.
    + exists EmptyString. split; [reflexivity|]. split; [now left|]. tauto.
    + exists (String n0 name' +:+ ":"). split; [now rewrite string_app_assoc|].
      split; [right; eauto|]. split; [discriminate | intros [_ H]; discriminate].
  - destruct eff as [|e0 eff'] eqn:He; simpl nonempty; cbn iota.
    + exists (String b0 base' +:+ ":"). split; [now rewrite string_app_assoc|].
      split; [right; eauto|]. split; [discriminate | intros [H _]; discriminate].
    + exists (String b0 base' +:+ "/" +:+ String e0 eff' +:+ ":").
      split; [now rewrite !string_app_assoc|].
      split; [right; exists (String b0 base' +:+ "/" +:+ String e0 eff');
              now rewrite !string_app_assoc|].
      split; [discriminate | intros [H _]; discriminate].
Qed.

End ServicesImagesFacts.

(** ** The build form: registry, build arguments, tags *)

Module BuildFormFacts.
Import BuildFormInputs.

Lemma find_first {A} (p : A -> bool) pre d post :
  (forall x, x ∈ pre -> p x = false) -> p d = true ->
  List.find p (pre ++ d :: post) = Some d.
Proof.
  induction pre as [|x pre IH]; intros Hpre Hd; simpl.
  - now rewrite Hd.
  - rewrite (Hpre x (list_elem_of_here _ _)).
    apply IH; [|exact Hd]. intros y Hy. apply Hpre. now right.
Qed.

Lemma find_all_false {A} (p : A -> bool) l :
  (forall x, x ∈ l -> p x = false) -> List.find p l = None.
Proof.
  induction l as [|x l IH]; intros Hl; [reflexivity|]. simpl.
  rewrite (Hl x (list_elem_of_here _ _)).
  apply IH. intros y Hy. apply Hl. now right.
Qed.

(** X20: the registry preselected in the form is the first of the list
    that is both default and authenticated; when there is none, it is
    the first of the list if that one is authenticated, and nothing is
    preselected otherwise.  So a preselected registry is always an
    authenticated one of the list, and with no authenticated registry or
    an empty list nothing is preselected. *)
Theorem default_registry_authenticated (regs : list registry) :
  (forall pre d post, regs = pre ++ d :: post ->
     (forall r, r ∈ pre -> is_default r && is_authenticated r = false) ->
     is_default d = true -> is_authenticated d = true ->
     default_registry regs = Some (reg_url d)) /\
  (forall r0 rest, regs = r0 :: rest ->
     (forall r, r ∈ regs -> is_default r && is_authenticated r = false) ->
     default_registry regs = if is_authenticated r0 then Some (reg_url r0) else None) /\
  (regs = [] -> default_registry regs = None) /\
  (forall u, default_registry regs = Some u ->
     exists reg, reg ∈ regs /\ reg_url reg = u /\ is_authenticated reg = true) /\
  ((forall reg, reg ∈ regs -> is_authenticated reg = false) ->
     default_registry regs = None).
Proof.
  unfold default_registry. split; [|split; [|split; [|split]]].
  - intros pre d post -> Hpre Hd Ha.
    rewrite (find_first _ pre d post Hpre); [reflexivity|].
    now rewrite Hd, Ha.
  - intros r0 rest -> Hall. now rewrite (find_all_false _ _ Hall).
  - now intros ->.
  - intros u.
    destruct (List.find (fun r => is_default r && is_authenticated r) regs) as [d|] eqn:E.
    + intros [= <-]. apply find_some in E as [Hin Hd].
      apply andb_prop in Hd as [_ Ha]. exists d.
      split; [now apply list_elem_of_In | now split].
    + destruct regs as [|r0 regs]; [discriminate|].
      destruct (is_authenticated r0) eqn:Ha; [|discriminate].
      intros [= <-]. exists r0. split; [apply list_elem_of_here | now split].
  - intros Hall.
    destruct (List.find (fun r => is_default r && is_authenticated r) regs) as [d|] eqn:E.
    + apply find_some in E as [Hin Hd]. apply andb_prop in Hd as [_ Ha].
      apply list_elem_of_In in Hin. rewrite (Hall d Hin) in Ha. discriminate.
    + destruct regs as [|r0 regs]; [reflexivity|].
      now rewrite (Hall r0 (list_elem_of_here _ _)).
Qed.

Lemma default_registry_authenticated_witness :
  default_registry
    [ {| reg_url := "gcr.io/b"; is_default := false; is_authenticated := true |};
      {| reg_url := "gcr.io/a"; is_default := true; is_authenticated := false |} ]
  = Some "gcr.io/b"%string /\
  default_registry
    [ {| reg_url := "gcr.io/b"; is_default := false; is_authenticated := true |};
      {| reg_url := "gcr.io/c"; is_default := true; is_authenticated := true |} ]
  = Some "gcr.io/c"%string.
Proof.
  split.
  - apply (proj1 (proj2 (default_registry_authenticated
      [ {| reg_url := "gcr.io/b"; is_default := false; is_authenticated := true |};
        {| reg_url := "gcr.io/a"; is_default := true; is_authenticated := false |} ]))
      {| reg_url := "gcr.io/b"; is_default := false; is_authenticated := true |}
      [ {| reg_url := "gcr.io/a"; is_default := true; is_authenticated := false |} ]).
    + reflexivity.
    + intros r Hr. rewrite !elem_of_cons, elem_of_nil in Hr.
      destruct Hr as [-> | [-> | []]]; reflexivity.
  - apply (proj1 (default_registry_authenticated
      [ {| reg_url := "gcr.io/b"; is_default := false; is_authenticated := true |};
        {| reg_url := "gcr.io/c"; is_default := true; is_authenticated := true |} ])
      [ {| reg_url := "gcr.io/b"; is_default := false; is_authenticated := true |} ]
      {| reg_url := "gcr.io/c"; is_default := true; is_authenticated := true |} []).
    + reflexivity.
    + intros r Hr. rewrite elem_of_cons, elem_of_nil in Hr.
      destruct Hr as [-> | []]; reflexivity.
    + reflexivity.
    + reflexivity.
Defined.

(** One step of the [forEach]. *)
Lemma buildArgs_snoc args a :
  buildArgsObject (args ++ [a]) =
  match arg_value a with
  | Some (String _ _ as v) => assign (arg_name a) v (buildArgsObject args)
  | _ => buildArgsObject args
  end.
Proof. unfold buildArgsObject. now rewrite foldl_app. Qed.

Lemma assign_lookup_eq name v (obj : gmap string string) :
  name <> "__proto__" -> assign name v obj !! name = Some v.
Proof.
  intros Hn. unfold assign.
  rewrite (proj2 (String.eqb_neq _ _) Hn). apply lookup_insert_eq.
Qed.

Lemma assign_lookup_ne name v (obj : gmap string string) n :
  name <> n -> assign name v obj !! n = obj !! n.
Proof.
  intros Hn. unfold assign.
  destruct (String.eqb name "__proto__"); [reflexivity|].
  now apply lookup_insert_ne.
Qed.

Lemma buildArgs_keeps (obj : gmap string string) post n :
  (forall b, b ∈ post -> arg_name b = n -> truthy (arg_value b) = false) ->
  foldl (fun obj arg =>
           match arg_value arg with
           | Some (String _ _ as v) => assign (arg_name arg) v obj
           | _ => obj
           end) obj post !! n = obj !! n.
Proof.
  revert obj. induction post as [|b post IH]; intros obj Hpost; [reflexivity|].
  cbn [foldl]. rewrite IH by (intros x Hx; apply Hpost; now right).
  destruct (arg_value b) as [[|c v]|] eqn:Hv; try reflexivity.
  apply assign_lookup_ne.
  intros E. specialize (Hpost b (list_elem_of_here _ _) E).
  rewrite Hv in Hpost. discriminate.
Qed.

(** X21: of several build arguments with the same name, other than
    [__proto__], the value sent is that of the last one whose value is
    not empty; later entries of that name with an empty or missing value
    do not erase it. *)
Theorem buildArgsObject_last_wins (pre post : list build_arg) (a : build_arg) (v : string) :
  arg_name a <> "__proto__" ->
  arg_value a = Some v -> v <> EmptyString ->
  (forall b, b ∈ post -> arg_name b = arg_name a -> truthy (arg_value b) = false) ->
  buildArgsObject (pre ++ a :: post) !! arg_name a = Some v.
Proof.
  intros Hname Hv Hne Hpost. unfold buildArgsObject.
  rewrite foldl_app. cbn [foldl]. rewrite (buildArgs_keeps _ post _ Hpost).
  rewrite Hv. destruct v as [|c v]; [congruence|].
  now apply assign_lookup_eq.
Qed.

Lemma buildArgsObject_last_wins_witness :
  buildArgsObject
    ([ {| arg_name := "VERSION"; arg_value := Some "1" |} ]
     ++ {| arg_name := "VERSION"; arg_value := Some "2" |}
     :: [ {| arg_name := "VERSION"; arg_value := Some "" |};
          {| arg_name := "MODE"; arg_value := Some "dev" |} ])
    !! "VERSION" = Some "2"%string.
Proof.
  apply (buildArgsObject_last_wins
           [ {| arg_name := "VERSION"; arg_value := Some "1" |} ]
           [ {| arg_name := "VERSION"; arg_value := Some "" |};
             {| arg_name := "MODE"; arg_value := Some "dev" |} ]
           {| arg_name := "VERSION"; arg_value := Some "2" |} "2").
  - discriminate.
  - reflexivity.
  - discriminate.
  - intros b Hb Hn. rewrite !elem_of_cons, elem_of_nil in Hb.
    destruct Hb as [-> | [-> | []]]; [reflexivity | discriminate Hn].
Defined.

(** X22: the build arguments sent never hold an empty value and never
    hold the name [__proto__]: every entry of the object comes from an
    argument of that name with that non-empty value, and a name is
    absent exactly when it is [__proto__] or all its arguments are empty
    or unset. *)
Theorem buildArgsObject_sound (args : list build_arg) (n : string) :
  (forall v, buildArgsObject args !! n = Some v ->
     v <> EmptyString /\ n <> "__proto__" /\
     exists a, a ∈ args /\ arg_name a = n /\ arg_value a = Some v) /\
  (buildArgsObject args !! n = None <->
   n = "__proto__" \/
   forall a, a ∈ args -> arg_name a = n -> truthy (arg_value a) = false).
Proof.
  induction args as [|a args [IH1 IH2]] using rev_ind.
  - split.
    + intros v H. unfold buildArgsObject in H. simpl in H.
      rewrite lookup_empty in H. discriminate.
    + split; [intros _; right; intros a Ha; now apply elem_of_nil in Ha
             | intros _; apply lookup_empty].
  - rewrite buildArgs_snoc.
    assert (Hin : forall x, x ∈ args -> x ∈ args ++ [a])
      by (intros x Hx; apply elem_of_app; now left).
    assert (Hlast : a ∈ args ++ [a])
      by (apply elem_of_app; right; apply list_elem_of_here).
    assert (Hsame :
      truthy (arg_value a) = false \/ arg_name a <> n \/ n = "__proto__" ->
      (forall v, buildArgsObject args !! n = Some v ->
         v <> EmptyString /\ n <> "__proto__" /\
         exists a0, a0 ∈ args ++ [a] /\ arg_name a0 = n /\ arg_value a0 = Some v) /\
      (buildArgsObject args !! n = None <->
       n = "__proto__" \/
       forall a0, a0 ∈ args ++ [a] -> arg_name a0 = n ->
                  truthy (arg_value a0) = false)).
    { intros Hc. split.
      - intros v H. destruct (IH1 v H) as (Hne & Hp & x & Hx & Hn & Hxv). eauto 8.
      - rewrite IH2. split.
        + intros [Hp | H]; [now left|].
          destruct Hc as [Hc | [Hc | Hc]]; [right | right | now left];
            intros x [Hx | ->%list_elem_of_singleton]%elem_of_app Hn;
            solve [now apply H | exact Hc | contradiction].
        + intros [Hp | H]; [now left|]. right. intros x Hx. apply H. now apply Hin. }
    destruct (arg_value a) as [[|c w]|] eqn:Hv.
    + apply Hsame. now left.
    + destruct (decide (arg_name a = n)) as [E | E];
        [destruct (decide (n = "__proto__")) as [P | P]|].
      * assert (assign (arg_name a) (String c w) (buildArgsObject args)
                = buildArgsObject args) as ->
          by (unfold assign; rewrite E, P; reflexivity).
        apply Hsame. now right; right.
      * assert (Hl : assign (arg_name a) (String c w) (buildArgsObject args) !! n
                     = Some (String c w))
          by (rewrite <- E; apply assign_lookup_eq; now rewrite E).
        rewrite Hl. split.
        -- intros v [= <-]. split; [discriminate|]. split; [exact P|]. eauto.
        -- split; [discriminate|]. intros [Hp | H]; [contradiction|].
           specialize (H a Hlast E). rewrite Hv in H. discriminate.
      * rewrite (assign_lookup_ne _ _ _ _ E). apply Hsame. now right; left.
    + apply Hsame. now left.
Qed.

Lemma buildArgsObject_sound_witness :
  "dev"%string <> EmptyString /\ "MODE"%string <> "__proto__"%string /\
  exists a,
    a ∈ [ {| arg_name := "MODE"; arg_value := Some "" |};
          {| arg_name := "MODE"; arg_value := Some "dev" |};
          {| arg_name := "__proto__"; arg_value := Some "x" |};
          {| arg_name := "MODE"; arg_value := None |} ] /\
    arg_name a = "MODE"%string /\ arg_value a = Some "dev"%string.
Proof.
  apply (proj1 (buildArgsObject_sound
    [ {| arg_name := "MODE"; arg_value := Some "" |};
      {| arg_name := "MODE"; arg_value := Some "dev" |};
      {| arg_name := "__proto__"; arg_value := Some "x" |};
      {| arg_name := "MODE"; arg_value := None |} ] "MODE") "dev").
  reflexivity.
Defined.

Lemma trim_start_head s :
  match trim_start s with String c _ => is_space c = false | EmptyString => True end.
Proof.
  induction s as [|c s IH]; [exact I|]. simpl.
  destruct (is_space c) eqn:Hc; [exact IH | exact Hc].
Qed.

Lemma trim_end_head c s :
  is_space c = false -> exists r, trim_end (String c s) = String c r.
Proof.
  intros Hc. simpl. destruct (trim_end s); [rewrite Hc|]; eauto.
Qed.

Lemma trim_end_fixed s : trim_end (trim_end s) = trim_end s.
Proof.
  induction s as [|c s IH]; [reflexivity|].
  simpl. destruct (trim_end s) as [|x u] eqn:E.
  - destruct (is_space c) eqn:Hc; [reflexivity|]. simpl. now rewrite Hc.
  - change (trim_end (String c (String x u)))
      with (match trim_end (String x u) with
            | EmptyString => if is_space c then EmptyString else String c EmptyString
            | r => String c r
            end).
    now rewrite IH.
Qed.

(** Trimming a trimmed string changes nothing. *)
Lemma trim_fixed s : trim (trim s) = trim s.
Proof.
  unfold trim. pose proof (trim_start_head s) as Hh.
  destruct (trim_start s) as [|c u] eqn:E; [reflexivity|].
  destruct (trim_end_head c u Hh) as (r & Hr).
  assert (Hs : trim_start (trim_end (String c u)) = trim_end (String c u)).
  { rewrite Hr. simpl. now rewrite Hh. }
  rewrite Hs. apply trim_end_fixed.
Qed.

(** X23: validation normalises: the value it returns has no white space
    left to trim, and validating that value again gives the same verdict
    and the same value. *)
Theorem validateTag_idempotent (raw : option string) :
  trim (value (validateTag raw)) = value (validateTag raw) /\
  validateTag (Some (value (validateTag raw))) = validateTag raw.
Proof.
  destruct (trim (or_string raw "")) as [|c t] eqn:E.
  - rewrite (validateTag_blank raw E). simpl. split; reflexivity.
  - assert (Hne : trim (or_string raw "") <> EmptyString) by (rewrite E; discriminate).
    rewrite (validateTag_nonblank raw Hne). simpl value.
    assert (Hfix : trim (trim (or_string raw "")) = trim (or_string raw ""))
      by apply trim_fixed.
    split; [exact Hfix|].
    rewrite validateTag_nonblank; rewrite or_string_Some, Hfix; [reflexivity | exact Hne].
Qed.

Lemma generateTag_valid now :
  calendar_date now ->
  tag_regex (generateTag now) = true /\ String.length (generateTag now) = 15%nat.
Proof.
  intros Hnow. rewrite (generateTag_fields now Hnow).
  destruct Hnow as (Hy & Hm & Hd & Hh & Hmi & Hs).
  split.
  - apply tag_regex_shape.
    + rewrite !all_chars_app, dec4_digits, !dec2_digits by lia. reflexivity.
    + rewrite !string_app_length. reflexivity.
    + rewrite !all_chars_app, !dec2_digits by lia. reflexivity.
  - rewrite !string_app_length. reflexivity.
Qed.

(** X24: whatever the form holds, a build is only ever posted with a tag
    that is a valid tag: it matches the tag pattern, has at most 128
    characters and no surrounding white space (the clock showing a
    four-digit year). *)
Theorem submit_posts_valid_tag (now : utc_date) (f : form) (t : string) :
  calendar_date now ->
  submit now f = PostBuild t ->
  tag_regex t = true /\ (String.length t <= 128)%nat /\ trim t = t /\
  (t = trim (or_string (tag f) "") \/
   (trim (or_string (tag f) "") = EmptyString /\ t = generateTag now)).
Proof.
  intros Hnow Hsub. unfold submit in Hsub.
  destruct (branchesLoaded f && Nat.eqb (length (branches f)) 0); [discriminate|].
  destruct (Nat.eqb (String.length (branch f)) 0); [discriminate|].
  destruct (string_dec (trim (or_string (tag f) "")) EmptyString) as [E | Hne].
  - rewrite (validateTag_blank _ E) in Hsub. simpl in Hsub. injection Hsub as <-.
    destruct (generateTag_valid now Hnow) as [Hre Hlen].
    split; [exact Hre|]. split; [rewrite Hlen; lia|].
    split; [|now right].
    apply trim_tag_chars. now apply tag_regex_chars in Hre.
  - rewrite (validateTag_nonblank _ Hne) in Hsub. cbn [ok value] in Hsub.
    destruct (Nat.leb (String.length (trim (or_string (tag f) ""))) 128
              && tag_regex (trim (or_string (tag f) ""))) eqn:Hok;
      cbn [negb] in Hsub; [|discriminate].
    apply andb_prop in Hok as [Hlen Hre]. apply Nat.leb_le in Hlen.
    assert (Ht : t = trim (or_string (tag f) "")).
    { destruct (trim (or_string (tag f) "")); [congruence | now injection Hsub]. }
    subst t. split; [exact Hre|]. split; [exact Hlen|]. split; [|now left].
    apply trim_fixed.
Qed.

Lemma submit_posts_valid_tag_witness :
  tag_regex "release-1.0" = true /\ (String.length "release-1.0" <= 128)%nat /\
  trim "release-1.0" = "release-1.0"%string /\
  ("release-1.0"%string = trim (or_string (Some " release-1.0 ") "") \/
   (trim (or_string (Some " release-1.0 ") "") = EmptyString /\
    "release-1.0"%string = generateTag (UtcDate 2024 0 5 3 4 9))).
Proof.
  apply (submit_posts_valid_tag (UtcDate 2024 0 5 3 4 9)
           {| branchesLoaded := true; branches := ["main"]; branch := "main";
              tag := Some " release-1.0 " |} "release-1.0").
  - unfold calendar_date. simpl. lia.
  - reflexivity.
Defined.

End BuildFormFacts.

(** ** Adding a registry *)

Module RegistryFormFacts.
Import RegistryForm.

(** X25: a registry is only posted with a name and a URL, and with
    exactly one way to authenticate: either the service account, and then
    no user name or password is sent even if some were typed, or a user
    name and a password that are both non-empty. *)
Theorem addRegistry_posts_one_credential (f : registry_form) (b : registry_body) :
  addRegistry f = PostRegistry b ->
  body_name b = name f /\ body_name b <> EmptyString /\
  body_url b = url f /\ body_url b <> EmptyString /\
  (body_use_service_account b = true ->
     body_username b = EmptyString /\ body_password b = EmptyString) /\
  (body_use_service_account b = false ->
     body_username b = username f /\ body_username b <> EmptyString /\
     body_password b = password f /\ body_password b <> EmptyString).
Proof.
  unfold addRegistry.
  destruct (name f) as [|n0 n] eqn:Hn; [discriminate|].
  destruct (url f) as [|u0 u] eqn:Hu; [discriminate|].
  simpl. destruct (useServiceAccount f) eqn:Hsa; simpl.
  - intros [= <-]. simpl. repeat split; try discriminate.
  - destruct (username f) as [|a0 a] eqn:Ha; [discriminate|].
    destruct (password f) as [|p0 p] eqn:Hp; [discriminate|].
    simpl. intros [= <-]. simpl. repeat split; try discriminate.
Qed.

Lemma addRegistry_posts_one_credential_witness :
  body_username
    {| body_name := "gar"; body_url := "us-docker.pkg.dev/p/r"; body_username := "";
       body_password := ""; body_is_default := true; body_use_service_account := true;
       body_project_id := "p" |} = EmptyString.
Proof.
  refine (proj1 (proj1 (proj2 (proj2 (proj2 (proj2
    (addRegistry_posts_one_credential
       {| name := "gar"; url := "us-docker.pkg.dev/p/r"; username := "me";
          password := "secret"; isDefault := true; useServiceAccount := true;
          projectId := "p" |}
       {| body_name := "gar"; body_url := "us-docker.pkg.dev/p/r"; body_username := "";
          body_password := ""; body_is_default := true; body_use_service_account := true;
          body_project_id := "p" |} _))))) _)).
  - reflexivity.
  - reflexivity.
Defined.

End RegistryFormFacts.
